(** * Price / stock tracker: extractors and per-item orchestration

    Shallow embedding of [src/handler.ts] (the Tokopedia scraper) and of its
    sibling handler with [extractLazadaPriceAndStock] and
    [extractAmazonPriceAndStock].

    Conventions of the model.
    - A JavaScript string is a list of code units; only code units below 256
      are represented ([ascii]).  Page contents are [text]; store keys are
      [string] (for [gmap]).
    - A JavaScript number is represented by the exact rational it denotes
      ([Q]); [NaN] is [None] where a parse can produce it.  Rounding to
      binary64 is not modelled.
    - Regular expressions are kept as syntax trees and run by a backtracking
      matcher with the priorities of the ECMAScript one (left alternative
      first, greedy [*] and [+], lazy [{0,n}?], leftmost start position). *)

From Stdlib Require Import List Ascii String NArith ZArith QArith Qround Bool Lia Lqa.
From stdpp Require Import base option gmap strings.
Import ListNotations.
Set Warnings "-register-all".

Local Open Scope bool_scope.
Local Open Scope list_scope.

(* ===================================================================== *)
(** ** Text and character classes *)

Definition text := list ascii.

Definition str (s : string) : text := list_ascii_of_string s.

Definition code (c : ascii) : N := N_of_ascii c.

Definition in_range (lo hi : N) (c : ascii) : bool :=
  (lo <=? code c)%N && (code c <=? hi)%N.

Definition dquote : ascii := ascii_of_N 34.
Definition backtick : ascii := ascii_of_N 96.
Definition newline : ascii := ascii_of_N 10.

(** Literals that contain the double quote are written with a backtick in
    its place: [js] turns every backtick of its argument into a double
    quote. *)
Definition js (s : string) : text :=
  List.map (fun c => if Ascii.eqb c backtick then dquote else c) (str s).

(** [[0-9]] and [\d]. *)
Definition is_digit (c : ascii) : bool := in_range 48 57 c.

(** [\s] on the represented code units: TAB, LF, VT, FF, CR, SP, NBSP. *)
Definition is_space (c : ascii) : bool :=
  in_range 9 13 c || (code c =? 32)%N || (code c =? 160)%N.

Definition is_char (a : ascii) (c : ascii) : bool := Ascii.eqb a c.

(** [[0-9.]] (also written [[0-9\.]]). *)
Definition is_digit_or_dot (c : ascii) : bool := is_digit c || is_char "." c.

(** [[0-9.,]]. *)
Definition is_digit_dot_comma (c : ascii) : bool :=
  is_digit c || is_char "." c || is_char "," c.

(** [[\s\S]]. *)
Definition any_char (_ : ascii) : bool := true.

(** The class of every character but the double quote. *)
Definition not_dquote (c : ascii) : bool := negb (is_char dquote c).

(** The class of every character but the single quote. *)
Definition not_squote (c : ascii) : bool := negb (is_char "'" c).

(** The class of every character but the less-than sign and the newline. *)
Definition not_lt_or_newline (c : ascii) : bool :=
  negb (is_char "<" c || is_char newline c).

(** Canonicalize of the ECMAScript matcher under the [i] flag (no [u]
    flag): the upper-case form of the code unit.  On code units below 256
    this maps a-z and the accented lower-case letters to their capitals and
    fixes the others (the capitals of U+00B5, U+00DF and U+00FF are not
    single code units below 256 equal to another represented one). *)
Definition canonicalize (c : ascii) : ascii :=
  if in_range 97 122 c
     || (in_range 224 254 c && negb (code c =? 247)%N)
  then ascii_of_N (code c - 32)
  else c.

(* ===================================================================== *)
(** ** Regular expressions *)

(** The fragment of the pattern language the source uses.  Every quantifier
    of the source applies to a single character class, so the repetitions
    carry a class, not a sub-expression; there is at most one capturing
    group per pattern. *)
Inductive regex : Type :=
| Empty
| Char (c : ascii)                       (* a literal character *)
| Class (p : ascii -> bool)              (* a character class *)
| Seq (r1 r2 : regex)
| Alt (r1 r2 : regex)                    (* r1|r2 *)
| StarClass (p : ascii -> bool)          (* greedy star of a class *)
| LazyClass (n : nat) (p : ascii -> bool)  (* lazy {0,n}? of a class *)
| Group (r : regex).                     (* capturing group 1 *)

Fixpoint Lit (s : text) : regex :=
  match s with
  | [] => Empty
  | c :: s' => Seq (Char c) (Lit s')
  end.

(** Greedy plus of a class. *)
Definition PlusClass (p : ascii -> bool) : regex := Seq (Class p) (StarClass p).

(** Greedy optional non-capturing group. *)
Definition Opt (r : regex) : regex := Alt r Empty.

Fixpoint Seqs (rs : list regex) : regex :=
  match rs with
  | [] => Empty
  | r :: rs' => Seq r (Seqs rs')
  end.

Section Matcher.
Variable ignoreCase : bool.
Context {R : Type}.

Definition char_eq (c a : ascii) : bool :=
  if ignoreCase then Ascii.eqb (canonicalize c) (canonicalize a)
  else Ascii.eqb c a.

(** Greedy repetition: take one more character when possible, fall back
    to the continuation when the longer attempt fails. *)
Fixpoint star (p : ascii -> bool) (s : text) (k : text -> option R)
  : option R :=
  match s with
  | [] => k []
  | c :: s' =>
      if p c then
        match star p s' k with
        | Some x => Some x
        | None => k s
        end
      else k s
  end.

(** Lazy bounded repetition: try the continuation first, take one more
    character (at most [n]) only when it fails. *)
Fixpoint lazy (n : nat) (p : ascii -> bool) (s : text)
  (k : text -> option R) : option R :=
  match k s with
  | Some x => Some x
  | None =>
      match n, s with
      | S n', c :: s' => if p c then lazy n' p s' k else None
      | _, _ => None
      end
  end.

(** [m r s cap k]: match [r] at the head of [s] with group 1 currently
    [cap], then continue with [k] on the rest; [None] is failure and
    makes the caller backtrack. *)
Fixpoint m (r : regex) (s : text) (cap : option text)
  (k : text -> option text -> option R) : option R :=
  match r with
  | Empty => k s cap
  | Char c =>
      match s with
      | a :: s' => if char_eq c a then k s' cap else None
      | [] => None
      end
  | Class p =>
      match s with
      | a :: s' => if p a then k s' cap else None
      | [] => None
      end
  | Seq r1 r2 => m r1 s cap (fun s' cap' => m r2 s' cap' k)
  | Alt r1 r2 =>
      match m r1 s cap k with
      | Some x => Some x
      | None => m r2 s cap k
      end
  | StarClass p => star p s (fun s' => k s' cap)
  | LazyClass n p => lazy n p s (fun s' => k s' cap)
  | Group r1 =>
      m r1 s cap
        (fun s' _ => k s' (Some (firstn (length s - length s') s)))
  end.
End Matcher.

(** A successful match: group 1, [None] when the group did not take part. *)
Definition match_array := option text.

(** The match of [r] that starts at the head of [s]. *)
Definition match_here (ignoreCase : bool) (r : regex) (s : text)
  : option match_array :=
  m ignoreCase r s None (fun _ cap => Some cap).

(** [s.match(r)] for a pattern without the [g] flag: the match at the
    leftmost start position that has one; [None] is [null]. *)
Fixpoint String_match (ignoreCase : bool) (r : regex) (s : text)
  : option match_array :=
  match match_here ignoreCase r s with
  | Some g => Some g
  | None =>
      match s with
      | [] => None
      | _ :: s' => String_match ignoreCase r s'
      end
  end.

(** [r.test(s)]. *)
Definition RegExp_test (ignoreCase : bool) (r : regex) (s : text) : bool :=
  match String_match ignoreCase r s with Some _ => true | None => false end.

(** [match[1]]; the empty text stands for [undefined], which no pattern of
    the source can produce (its group is never inside an alternative). *)
Definition group1 (g : match_array) : text :=
  match g with Some t => t | None => [] end.

(** [s.replace(re, empty)] for a global single-class pattern: delete every
    character of the class. *)
Definition remove_all (p : ascii -> bool) (s : text) : text :=
  List.filter (fun c => negb (p c)) s.

(* ===================================================================== *)
(** ** Numbers *)

Definition number := Q.

Definition digit_value (c : ascii) : Z := Z.of_N (code c) - 48.

(** Value of a run of decimal digits, most significant first. *)
Definition digits_value (ds : text) : Z :=
  fold_left (fun acc c => 10 * acc + digit_value c)%Z ds 0%Z.

Fixpoint take_while (p : ascii -> bool) (s : text) : text :=
  match s with
  | c :: s' => if p c then c :: take_while p s' else []
  | [] => []
  end.

Fixpoint drop_while (p : ascii -> bool) (s : text) : text :=
  match s with
  | c :: s' => if p c then drop_while p s' else s
  | [] => []
  end.

Definition is_nil (s : text) : bool :=
  match s with [] => true | _ => false end.

(** [parseInt(s, 10)] on the arguments the source passes, which hold
    digits only (no white space, no sign): the value of the longest prefix
    of digits, [NaN] ([None]) when that prefix is empty. *)
Definition parseInt (s : text) : option number :=
  let ds := take_while is_digit s in
  if is_nil ds then None else Some (inject_Z (digits_value ds)).

(** The rational [ip.fp] for digit runs [ip] and [fp]. *)
Definition decimal_value (ip fp : text) : number :=
  Qmake (digits_value (ip ++ fp)) (Z.to_pos (10 ^ Z.of_nat (length fp))).

(** [parseFloat(s)] on the arguments the source passes, which hold digits
    and dots only (no white space, sign or exponent): the value of the
    longest prefix that is a decimal literal ([d+], [d+.d*] or [.d+]),
    [NaN] ([None]) when there is none. *)
Definition parseFloat (s : text) : option number :=
  let ip := take_while is_digit s in
  match drop_while is_digit s with
  | c :: s' =>
      if is_char "." c then
        let fp := take_while is_digit s' in
        if is_nil ip && is_nil fp then None
        else Some (decimal_value ip fp)
      else if is_nil ip then None else Some (decimal_value ip [])
  | [] => if is_nil ip then None else Some (decimal_value ip [])
  end.

(** [Math.round(x)]: the integer nearest to [x], halves going up. *)
Definition Math_round (x : number) : number :=
  inject_Z (Qfloor (x + (1 # 2))).

(** [a < b] on numbers. *)
Definition lt_number (a b : number) : bool :=
  match Qlt_le_dec a b with left _ => true | right _ => false end.

(* ===================================================================== *)
(** ** Exceptions *)

Inductive exn : Type :=
| SyntaxError            (* JSON.parse *)
| ConfigError            (* missing table names *)
| ServiceError (what : string).   (* a failed external call *)

Inductive completion (A : Type) : Type :=
| Normal (a : A)
| Throw (e : exn).
Arguments Normal {A} a.
Arguments Throw {A} e.

Definition bind_c {A B} (c : completion A) (f : A -> completion B)
  : completion B :=
  match c with
  | Normal a => f a
  | Throw e => Throw e
  end.

(** [try { body } catch { handler }]. *)
Definition try_catch {A} (body : completion A) (handler : exn -> completion A)
  : completion A :=
  match body with
  | Normal a => Normal a
  | Throw e => handler e
  end.

Definition is_normal {A} (c : completion A) : bool :=
  match c with Normal _ => true | Throw _ => false end.

(* ===================================================================== *)
(** ** Extractors *)

Record Reading : Type := mkReading {
  price : option number;      (* [None] is [null] *)
  inStock : option bool       (* [None] is [null]: unknown *)
}.

(** *** Marketplace A ([extractAmazonPriceAndStock]) *)

(** The [priceAmount] key in double quotes, white space, a colon, white
    space, then group 1: one or more digits or dots. *)
Definition re_priceAmount : regex :=
  Seqs [Lit (js "`priceAmount`"); StarClass is_space; Char ":";
        StarClass is_space; Group (PlusClass is_digit_or_dot)].

(** The [desktop_buybox_group_1] key, a colon between optional white space,
    the opening of a list of objects whose first key is [displayPrice],
    then group 1: the non-empty string value up to its closing quote. *)
Definition re_buyBox : regex :=
  Seqs [Lit (js "`desktop_buybox_group_1`"); StarClass is_space; Char ":";
        StarClass is_space; Lit (js "[{`displayPrice`:`");
        Group (PlusClass not_dquote); Char dquote].

(** [Product Summary:], lazily at most 200 characters of any kind,
    [One-time purchase:], white space, then group 1: one or more characters
    other than the less-than sign and the newline. *)
Definition re_summary : regex :=
  Seqs [Lit (str "Product Summary:"); LazyClass 200 any_char;
        Lit (str "One-time purchase:"); StarClass is_space;
        Group (PlusClass not_lt_or_newline)].

Definition re_InStock : regex := Lit (str "In Stock").
Definition re_CurrentlyUnavailable : regex := Lit (str "Currently unavailable").

Definition extractAmazonPriceAndStock (html : text) : completion Reading :=
  let price : option number := None in
  bind_c
    (try_catch
       (match String_match false re_priceAmount html with
        | Some amountMatch =>
            match parseFloat (group1 amountMatch) with
            | Some parsed => Normal (Some parsed)
            | None => Normal price
            end
        | None => Normal price
        end)
       (fun _ => Normal price))
    (fun price =>
  let price :=
    match price with
    | Some _ => price
    | None =>
        match String_match false re_buyBox html with
        | Some buyBoxMatch =>
            let displayPrice := group1 buyBoxMatch in
            let cleaned :=
              remove_all (fun c => negb (is_digit_dot_comma c)) displayPrice in
            let normalized := remove_all (is_char ",") cleaned in
            match parseFloat normalized with
            | Some parsed => Some parsed
            | None => price
            end
        | None => price
        end
    end in
  let price :=
    match price with
    | Some _ => price
    | None =>
        match String_match false re_summary html with
        | Some summaryMatch =>
            let rawPrice := group1 summaryMatch in
            let cleaned :=
              remove_all (fun c => negb (is_digit_dot_comma c)) rawPrice in
            let normalized := remove_all (is_char ",") cleaned in
            match parseFloat normalized with
            | Some parsed => Some parsed
            | None => price
            end
        | None => price
        end
    end in
  let inStock : option bool :=
    if RegExp_test true re_InStock html then Some true
    else if RegExp_test true re_CurrentlyUnavailable html then Some false
    else None in
  Normal (mkReading price inStock)).

(** *** Marketplace C ([extractLazadaPriceAndStock]) *)

(** A parsed JSON value; the members of an object are kept in source
    order. *)
Inductive json : Type :=
| JNull
| JBool (b : bool)
| JNumber (q : number)
| JString (s : text)
| JArray (l : list json)
| JObject (members : list (text * json)).

Definition text_eqb (a b : text) : bool :=
  if List.list_eq_dec ascii_dec a b then true else false.

(** ToBoolean of a parsed value. *)
Definition truthy (j : json) : bool :=
  match j with
  | JNull => false
  | JBool b => b
  | JNumber q => negb (Qeq_bool q 0)
  | JString s => negb (is_nil s)
  | JArray _ | JObject _ => true
  end.

(** The last member named [key] (a repeated name keeps its last value). *)
Fixpoint last_member (key : text) (members : list (text * json))
  : option json :=
  match members with
  | [] => None
  | (k, v) :: rest =>
      match last_member key rest with
      | Some v' => Some v'
      | None => if text_eqb k key then Some v else None
      end
  end.

(** [j.pdt_price] for a value that is not [null]: only an object can have
    a member of that name; [None] is [undefined]. *)
Definition get_pdt_price (j : json) : option json :=
  match j with
  | JObject members => last_member (str "pdt_price") members
  | _ => None
  end.

(** [var pdpTrackingData = ] followed by a double-quoted (resp.
    single-quoted) string, which is group 1. *)
Definition re_tracking (quote : ascii) (inside : ascii -> bool) : regex :=
  Seqs [Lit (str "var"); PlusClass is_space; Lit (str "pdpTrackingData");
        StarClass is_space; Char "="; StarClass is_space; Char quote;
        Group (StarClass inside); Char quote].
Definition re_tracking_dq : regex := re_tracking dquote not_dquote.
Definition re_tracking_sq : regex := re_tracking "'" not_squote.

(** In a pattern a backslash before a double quote is an identity escape,
    so the two patterns differ by the opening quote of the key only. *)
Definition re_pdt_price_escaped : regex :=
  Seqs [Lit (js "pdt_price`:`"); Group (PlusClass not_dquote); Char dquote].
Definition re_pdt_price_plain : regex :=
  Seqs [Lit (js "`pdt_price`:`"); Group (PlusClass not_dquote); Char dquote].

Definition re_StokHabis : regex := Lit (str "Stok habis").
Definition re_schemaInStock : regex := Lit (str "schema.org/InStock").

(** [a || b] on match results. *)
Definition or_else {A} (a b : option A) : option A :=
  match a with Some _ => a | None => b end.

(** [(g && g[1]) || ...]: the group when there is a match and the group is
    a non-empty string. *)
Definition and_group1 (g : option match_array) : option text :=
  match g with
  | Some g => if is_nil (group1 g) then None else Some (group1 g)
  | None => None
  end.

Section Lazada.
(** [JSON.parse], which raises [SyntaxError] on a text that is not
    JSON. *)
Variable JSON_parse : text -> completion json.

Definition extractLazadaPriceAndStock (html : text) : completion Reading :=
  let price : option number := None in
  bind_c
    (try_catch
       (let trackingMatch :=
          or_else (String_match false re_tracking_dq html)
                  (String_match false re_tracking_sq html) in
        match trackingMatch with
        | Some tm =>
            let jsonStr := group1 tm in
            bind_c (JSON_parse jsonStr) (fun tracking =>
              if truthy tracking then
                match get_pdt_price tracking with
                | Some (JString pdt_price) =>
                    let digits :=
                      remove_all (fun c => negb (is_digit c)) pdt_price in
                    match parseInt digits with
                    | Some parsed => Normal (Some parsed)
                    | None => Normal price
                    end
                | _ => Normal price
                end
              else Normal price)
        | None => Normal price
        end)
       (fun _ => Normal price))
    (fun price =>
  let price :=
    match price with
    | Some _ => price
    | None =>
        let escapedMatch := String_match false re_pdt_price_escaped html in
        let plainMatch := String_match false re_pdt_price_plain html in
        match or_else (and_group1 escapedMatch) (and_group1 plainMatch) with
        | Some rawPrice =>
            let digits := remove_all (fun c => negb (is_digit c)) rawPrice in
            match parseInt digits with
            | Some parsed => Some parsed
            | None => price
            end
        | None => price
        end
    end in
  let inStock : option bool :=
    if RegExp_test true re_StokHabis html then Some false
    else if RegExp_test true re_schemaInStock html then Some true
    else None in
  Normal (mkReading price inStock)).
End Lazada.

(** *** Marketplace B ([extractTokopediaPriceAndStock]) *)

(** [price=] then group 1: digits, optionally a dot and more digits. *)
Definition re_priceParam : regex :=
  Seqs [Lit (str "price=");
        Group (Seq (PlusClass is_digit)
                   (Opt (Seq (Char ".") (PlusClass is_digit))))].

(** [Rp], white space, then group 1: one or more digits or dots. *)
Definition re_Rp : regex :=
  Seqs [Lit (str "Rp"); StarClass is_space; Group (PlusClass is_digit_or_dot)].

(** [Stok:], white space, then group 1: one or more digits. *)
Definition re_Stok : regex :=
  Seqs [Lit (str "Stok:"); StarClass is_space; Group (PlusClass is_digit)].

Definition re_outOfStock : regex :=
  Alt (Lit (str "Stok habis"))
      (Alt (Lit (str "stok habis"))
           (Alt (Lit (str "sold out")) (Lit (str "habis")))).

Section Tokopedia.
(** [cheerio.load(html).text()]: the text content of the parsed
    document.  The HTML parser is a library, not part of the program. *)
Variable cheerio_text : text -> text.

Definition extractTokopediaPriceAndStock (html : text) : completion Reading :=
  let txt := cheerio_text html in
  let price : option number := None in
  let price :=
    match String_match false re_priceParam html with
    | Some priceMatch =>
        match parseFloat (group1 priceMatch) with
        | Some x => Some (Math_round x)
        | None => None      (* Math.round(NaN) is NaN: no such match *)
        end
    | None =>
        match String_match false re_Rp txt with
        | Some rpMatch =>
            let normalized := remove_all (is_char ".") (group1 rpMatch) in
            match parseInt normalized with
            | Some parsed => Some parsed
            | None => price
            end
        | None => price
        end
    end in
  let inStock : option bool := None in
  let inStock :=
    match String_match true re_Stok txt with
    | Some stokMatch =>
        match parseInt (group1 stokMatch) with
        | Some qty => Some (lt_number 0%Q qty)
        | None => inStock
        end
    | None =>
        if RegExp_test true re_outOfStock txt then Some false else inStock
    end in
  Normal (mkReading price inStock).
End Tokopedia.

(* ===================================================================== *)
(** ** Change decision (the three assignments after a successful reading) *)

Record ChangeDecision : Type := mkDecision {
  nowInStock : bool;
  priceDropped : bool;
  restocked : bool
}.

Definition decide_change (lastPrice : option number) (prevInStock : bool)
  (price : number) (inStock : option bool) : ChangeDecision :=
  (* inStock ?? prevInStock *)
  let nowInStock :=
    match inStock with Some b => b | None => prevInStock end in
  (* lastPrice != null && price < lastPrice *)
  let priceDropped :=
    match lastPrice with
    | Some lastPrice => lt_number price lastPrice
    | None => false
    end in
  (* prevInStock === false && nowInStock === true *)
  let restocked := Bool.eqb prevInStock false && Bool.eqb nowInStock true in
  mkDecision nowInStock priceDropped restocked.

(* ===================================================================== *)
(** ** Store, notifications and the scheduled handler *)

(** An attribute value of a store record. *)
Inductive attr : Type :=
| ANull
| ABool (b : bool)
| ANumber (q : number)
| AString (s : string).

(** A store record: attribute name to value ([Record<string, any>]). *)
Abbreviation Item := (gmap string attr).

(** The body of a notification (the template string, by its holes). *)
Inductive Message : Type :=
| PriceDropMessage (productUrl : string) (lastPrice : option number)
    (price : number) (userId email : string)
| RestockMessage (productUrl userId email : string).

Inductive Subject : Type :=
| PriceDropAlert (marketplace : string)
| StockRestockAlert (marketplace : string).

Record PublishInput : Type := mkPublish {
  TopicArn : string;
  PublishSubject : Subject;
  PublishMessage : Message
}.

(** What the handler can change: the products table (keyed by
    [product_url]) and the notifications handed to the channel. *)
Record World : Type := mkWorld {
  products : gmap string Item;
  outbox : list PublishInput
}.

(** The external collaborators.  Each call may raise; [ddb_update] and
    [sns_send] only say whether the call goes through, their effect on the
    [World] is written out in [update_product] and [publish]. *)
Record Services : Type := mkServices {
  axios_get : string -> World -> completion text;
  users_get : string -> World -> completion (option Item);
  sns_send : PublishInput -> World -> completion unit;
  ddb_update : string -> World -> completion unit;
  now : World -> string       (* new Date().toISOString() *)
}.

Record Config : Type := mkConfig {
  PRODUCTS_TABLE : string;
  USERS_TABLE : string;
  SNS_PRICE_DROP_TOPIC_ARN : string;
  SNS_STOCK_RESTOCK_TOPIC_ARN : string
}.

(** What differs between the two handlers. *)
Record Marketplace : Type := mkMarketplace {
  marketplace_name : string;
  last_price_field : string;       (* harga_terakhir / last_price *)
  extractPriceAndStock : text -> completion Reading
}.

(** One page of a scan; [None] for [Items] is [undefined]. *)
Record ScanOutput : Type := mkScan {
  Items : option (list Item)
}.

(** How a step of the per-item cycle ends. *)
Inductive signal (A : Type) : Type :=
| Value (a : A)
| Continue                 (* the [continue] statement *)
| Raised (e : exn).
Arguments Value {A} a.
Arguments Continue {A}.
Arguments Raised {A} e.

(** State and exception monad of the per-item cycle. *)
Definition M (A : Type) : Type := World -> signal A * World.

Definition ret {A} (a : A) : M A := fun w => (Value a, w).

Definition bind {A B} (c : M A) (f : A -> M B) : M B :=
  fun w =>
    match c w with
    | (Value a, w') => f a w'
    | (Continue, w') => (Continue, w')
    | (Raised e, w') => (Raised e, w')
    end.

Notation "x <- c ;; k" := (bind c (fun x => k))
  (at level 100, c at next level, right associativity).
Notation "c ;;; k" := (bind c (fun _ => k))
  (at level 100, right associativity).

Definition continue {A} : M A := fun w => (Continue, w).

(** An external call that reads the world and may raise. *)
Definition call {A} (f : World -> completion A) : M A :=
  fun w =>
    match f w with
    | Normal a => (Value a, w)
    | Throw e => (Raised e, w)
    end.

(** A pure computation that may raise. *)
Definition lift {A} (c : completion A) : M A := call (fun _ => c).

Definition non_empty (s : string) : bool :=
  match s with EmptyString => false | _ => true end.

(** A string-or-undefined attribute used as a condition or before [||]:
    an absent or empty value is falsy. *)
Definition as_string (v : option attr) : option string :=
  match v with
  | Some (AString s) => if non_empty s then Some s else None
  | _ => None
  end.

Section Handler.
Variable cfg : Config.
Variable svc : Services.
Variable mp : Marketplace.

(** [await sns.send(new PublishCommand(p))]. *)
Definition publish (p : PublishInput) : M unit :=
  call (sns_send svc p) ;;;
  (fun w => (Value tt, mkWorld (products w) (outbox w ++ [p]))).

(** [await ddb.send(new UpdateCommand(...))]: SET the three attributes
    of the record keyed by [productUrl] (created when absent). *)
Definition update_product (productUrl : string) (price : number)
  (nowInStock : bool) : M unit :=
  call (ddb_update svc productUrl) ;;;
  (fun w =>
     let old :=
       match products w !! productUrl with
       | Some item => item
       | None => {[ "product_url"%string := AString productUrl ]}
       end in
     let new :=
       <[ "updated_at"%string := AString (now svc w) ]>
         (<[ "in_stock"%string := ABool nowInStock ]>
            (<[ last_price_field mp := ANumber price ]> old)) in
     (Value tt, mkWorld (<[ productUrl := new ]> (products w)) (outbox w))).

(** [(user.Item?.email as string | undefined) || 'unknown']. *)
Definition email_of (user : option Item) : string :=
  match as_string (match user with
                   | Some item => item !! "email"%string
                   | None => None
                   end) with
  | Some e => e
  | None => "unknown"%string
  end.

Definition price_drop_publish (productUrl userId email : string)
  (lastPrice : option number) (price : number) : PublishInput :=
  mkPublish (SNS_PRICE_DROP_TOPIC_ARN cfg)
    (PriceDropAlert (marketplace_name mp))
    (PriceDropMessage productUrl lastPrice price userId email).

Definition restock_publish (productUrl userId email : string)
  : PublishInput :=
  mkPublish (SNS_STOCK_RESTOCK_TOPIC_ARN cfg)
    (StockRestockAlert (marketplace_name mp))
    (RestockMessage productUrl userId email).

(** The body of the [try] block for one record. *)
Definition item_cycle (productUrl userId : string)
  (lastPrice : option number) (prevInStock : bool) : M unit :=
  response <- call (axios_get svc productUrl) ;;
  reading <- lift (extractPriceAndStock mp response) ;;
  match price reading with
  | None => continue
  | Some price =>
      let d := decide_change lastPrice prevInStock price (inStock reading) in
      (if priceDropped d || restocked d then
         user <- call (users_get svc userId) ;;
         let email := email_of user in
         (if priceDropped d && non_empty (SNS_PRICE_DROP_TOPIC_ARN cfg) then
            publish (price_drop_publish productUrl userId email
                       lastPrice price)
          else ret tt) ;;;
         (if restocked d && non_empty (SNS_STOCK_RESTOCK_TOPIC_ARN cfg) then
            publish (restock_publish productUrl userId email)
          else ret tt)
       else ret tt) ;;;
      update_product productUrl price (nowInStock d)
  end.

(** [typeof item[field] === 'number' ? item[field] : undefined]. *)
Definition item_lastPrice (item : Item) : option number :=
  match item !! last_price_field mp with
  | Some (ANumber q) => Some q
  | _ => None
  end.

(** [typeof item.in_stock === 'boolean' ? item.in_stock : false]. *)
Definition item_prevInStock (item : Item) : bool :=
  match item !! "in_stock"%string with
  | Some (ABool b) => b
  | _ => false
  end.

(** One turn of [for (const item of items)], on the counter and the
    world.  The [catch] clause only logs, so whatever way the cycle ends
    the loop goes on with the world the cycle left. *)
Definition for_item (acc : nat * World) (item : Item) : nat * World :=
  let '(processed, w) := acc in
  let processed := S processed in
  let productUrl := as_string (item !! "product_url"%string) in
  let userId := as_string (item !! "user_id"%string) in
  let lastPrice := item_lastPrice item in
  let prevInStock := item_prevInStock item in
  match productUrl, userId with
  | Some productUrl, Some userId =>
      (processed,
       snd (item_cycle productUrl userId lastPrice prevInStock w))
  | _, _ => (processed, w)        (* warn and continue *)
  end.

Definition for_items (items : list Item) (acc : nat * World)
  : nat * World :=
  fold_left for_item items acc.

(** The [do ... while (ExclusiveStartKey)] loop: [scan] is the page just
    returned, [more] the pages that follow it; the cursor is defined
    exactly when [more] is not empty. *)
Fixpoint scan_loop (scan : ScanOutput) (more : list ScanOutput)
  (acc : nat * World) : nat * World :=
  let items := match Items scan with Some l => l | None => [] end in
  let acc := for_items items acc in
  match more with
  | [] => acc
  | next :: more' => scan_loop next more' acc
  end.

(** The handler: the count it logs at the end and the world it leaves,
    or the configuration error.  The store answers the successive scan
    requests with [first], then the pages of [more]; a scan request that
    fails is not caught by the handler and is not modelled. *)
Definition handler (first : ScanOutput) (more : list ScanOutput)
  (w : World) : completion (nat * World) :=
  if negb (non_empty (PRODUCTS_TABLE cfg))
     || negb (non_empty (USERS_TABLE cfg))
  then Throw ConfigError
  else Normal (scan_loop first more (0, w)).
End Handler.

Section Marketplaces.
Variable cheerio_text : text -> text.

(** [src/handler.ts]. *)
Definition tokopedia : Marketplace :=
  mkMarketplace "Tokopedia" "harga_terakhir"
    (extractTokopediaPriceAndStock cheerio_text).

(** The sibling handler. *)
Definition amazon : Marketplace :=
  mkMarketplace "Amazon" "last_price" extractAmazonPriceAndStock.
End Marketplaces.

(* ===================================================================== *)
(** ** Direct readings of the patterns

    Scanners written without the matcher; the lemmas below show that the
    matcher computes them on the patterns of the source. *)

(** The rest of [s] after the prefix [p], when [s] starts with [p]. *)
Fixpoint starts_with (ignoreCase : bool) (p s : text) : option text :=
  match p with
  | [] => Some s
  | c :: p' =>
      match s with
      | a :: s' =>
          if char_eq ignoreCase c a then starts_with ignoreCase p' s' else None
      | [] => None
      end
  end.

(** The leftmost suffix of [s] on which [f] answers. *)
Fixpoint find_first {A} (f : text -> option A) (s : text) : option A :=
  match f s with
  | Some a => Some a
  | None =>
      match s with
      | [] => None
      | _ :: s' => find_first f s'
      end
  end.

(** [p] occurs in [s]. *)
Definition occurs (ignoreCase : bool) (p s : text) : bool :=
  match find_first (starts_with ignoreCase p) s with
  | Some _ => true
  | None => false
  end.

(** [w] is [p] up to the case of its letters. *)
Definition same_letters (w p : text) : Prop :=
  List.map canonicalize w = List.map canonicalize p.

(** [s] holds [p] somewhere, in any mix of upper and lower case. *)
Definition contains_ci (p s : text) : Prop :=
  exists pre w post, s = pre ++ w ++ post /\ same_letters w p.

(** The first success of a chain of attempts. *)
Fixpoint first_some {A} (attempts : list (option A)) : option A :=
  match attempts with
  | [] => None
  | Some a :: _ => Some a
  | None :: rest => first_some rest
  end.

(** The longest prefix of [s] of the shape digits, or digits dot digits;
    empty when [s] does not start with a digit. *)
Definition number_literal (s : text) : text :=
  let ip := take_while is_digit s in
  if is_nil ip then []
  else
    match drop_while is_digit s with
    | c :: r =>
        if is_char "." c then
          let fp := take_while is_digit r in
          if is_nil fp then ip else ip ++ c :: fp
        else ip
    | [] => ip
    end.

(** The number of a [price=<number>] parameter at the head of [s]. *)
Definition price_param_here (s : text) : option text :=
  match starts_with false (str "price=") s with
  | Some rest =>
      let n := number_literal rest in
      if is_nil n then None else Some n
  | None => None
  end.

(** The number of the leftmost [price=<number>] parameter of [s]. *)
Definition price_param (s : text) : option text :=
  find_first price_param_here s.

(** The digits of a [Stok: N] quantity at the head of [s], the word in any
    case. *)
Definition stok_here (s : text) : option text :=
  match starts_with true (str "Stok:") s with
  | Some rest =>
      let ds := take_while is_digit (drop_while is_space rest) in
      if is_nil ds then None else Some ds
  | None => None
  end.

(** The quantity of the leftmost [Stok: N] of [s]. *)
Definition stok_quantity (s : text) : option Z :=
  match find_first stok_here s with
  | Some ds => Some (digits_value ds)
  | None => None
  end.

(** Every match of [r] goes through its capturing group. *)
Fixpoint sets_group (r : regex) : bool :=
  match r with
  | Group _ => true
  | Seq r1 r2 => sets_group r1 || sets_group r2
  | Alt r1 r2 => sets_group r1 && sets_group r2
  | _ => false
  end.

(** What the continuation sees when it requires a defined group. *)
Definition with_group {R} (k : text -> option text -> option R)
  : text -> option text -> option R :=
  fun s' c' => match c' with Some _ => k s' c' | None => None end.

(** The patterns of the source whose group 1 is read. *)
Definition capturing_patterns : list regex :=
  [re_priceAmount; re_buyBox; re_summary; re_tracking_dq; re_tracking_sq;
   re_pdt_price_escaped; re_pdt_price_plain; re_priceParam; re_Rp; re_Stok].

(** The three price attempts of marketplace A, each on its own. *)
Definition amazon_priceAmount (html : text) : option number :=
  match String_match false re_priceAmount html with
  | Some g => parseFloat (group1 g)
  | None => None
  end.

(** Keep digits, dots and commas, then drop the commas. *)
Definition currency_cleanup (s : text) : text :=
  remove_all (is_char ",") (remove_all (fun c => negb (is_digit_dot_comma c)) s).

Definition amazon_buyBox (html : text) : option number :=
  match String_match false re_buyBox html with
  | Some g => parseFloat (currency_cleanup (group1 g))
  | None => None
  end.

Definition amazon_summary (html : text) : option number :=
  match String_match false re_summary html with
  | Some g => parseFloat (currency_cleanup (group1 g))
  | None => None
  end.

(** The visible-text attempt of marketplace B. *)
Definition tokopedia_Rp (txt : text) : option number :=
  match String_match false re_Rp txt with
  | Some g => parseInt (remove_all (is_char ".") (group1 g))
  | None => None
  end.

(** The raw-key attempt of marketplace C. *)
Definition lazada_raw_key (html : text) : option number :=
  match or_else (and_group1 (String_match false re_pdt_price_escaped html))
                (and_group1 (String_match false re_pdt_price_plain html)) with
  | Some rawPrice => parseInt (remove_all (fun c => negb (is_digit c)) rawPrice)
  | None => None
  end.

(** The tracking-variable string of marketplace C, when the page has one. *)
Definition lazada_tracking (html : text) : option text :=
  match or_else (String_match false re_tracking_dq html)
                (String_match false re_tracking_sq html) with
  | Some g => Some (group1 g)
  | None => None
  end.

(** The number of records of a sequence of scan pages. *)
Definition scanned (pages : list ScanOutput) : nat :=
  length (concat (List.map (fun p => match Items p with
                                     | Some l => l
                                     | None => []
                                     end) pages)).


(** The stock flag of marketplace A, from the two phrases. *)
Definition amazon_stock (html : text) : option bool :=
  if occurs true (str "In Stock") html then Some true
  else if occurs true (str "Currently unavailable") html then Some false
  else None.

(** The stock flag of marketplace C, from the keyword and the marker. *)
Definition lazada_stock (html : text) : option bool :=
  if occurs true (str "Stok habis") html then Some false
  else if occurs true (str "schema.org/InStock") html then Some true
  else None.

(** One of the out-of-stock keywords of marketplace B occurs, in any
    case. *)
Definition out_of_stock_keyword (txt : text) : bool :=
  occurs true (str "stok habis") txt || occurs true (str "sold out") txt
  || occurs true (str "habis") txt.

(** The same, as a statement about the text. *)
Definition out_of_stock_phrase (txt : text) : Prop :=
  contains_ci (str "stok habis") txt \/ contains_ci (str "sold out") txt
  \/ contains_ci (str "habis") txt.

(** The stock flag of marketplace B, from the visible text. *)
Definition tokopedia_stock (txt : text) : option bool :=
  match stok_quantity txt with
  | Some n => Some (0 <? n)%Z
  | None => if out_of_stock_keyword txt then Some false else None
  end.

(** The tracking-variable attempt of marketplace C; a parse error counts
    as no value. *)
Definition lazada_tracking_price (JSON_parse : text -> completion json)
  (html : text) : option number :=
  match lazada_tracking html with
  | Some jsonStr =>
      match JSON_parse jsonStr with
      | Normal tracking =>
          if truthy tracking then
            match get_pdt_price tracking with
            | Some (JString pdt_price) =>
                parseInt (remove_all (fun c => negb (is_digit c)) pdt_price)
            | _ => None
            end
          else None
      | Throw _ => None
      end
  | None => None
  end.

(** The parameter attempt of marketplace B. *)
Definition tokopedia_param (html : text) : option number :=
  match price_param html with
  | Some n =>
      match parseFloat n with
      | Some x => Some (Math_round x)
      | None => None
      end
  | None => None
  end.

(** The text content of a page without markup is the page. *)
Definition plain_text (html : text) : text := html.

(** A parser that rejects every text. *)
Definition reject_all (_ : text) : completion json := Throw SyntaxError.




(* ===================================================================== *)
(** ** Statements about a cycle *)

(** The records of a sequence of scan pages, in scan order. *)
Definition all_records (pages : list ScanOutput) : list Item :=
  concat (List.map (fun p => match Items p with
                             | Some l => l
                             | None => []
                             end) pages).

(** Whatever way [c] ends, the world it leaves is related by [R] to the
    world it started in. *)
Definition ends_in {A} (R : World -> World -> Prop) (c : M A) : Prop :=
  forall w, R w (snd (c w)).

(** The products table is the same except perhaps at [url]. *)
Definition same_elsewhere (url : string) (w w' : World) : Prop :=
  forall u, u <> url -> products w' !! u = products w !! u.

(** The outbox got at most [n] more notifications, all satisfying [P]. *)
Definition grows (P : PublishInput -> Prop) (n : nat) (w w' : World) : Prop :=
  exists new,
    outbox w' = outbox w ++ new /\ length new <= n /\ Forall P new.

(** A notification the handler may send: to a configured topic, under the
    subject of its kind, with an address; a price drop names a previous
    price above the new one. *)
Definition sound_publish (cfg : Config) (mp : Marketplace)
  (q : PublishInput) : Prop :=
  non_empty (TopicArn q) = true /\
  match PublishMessage q with
  | PriceDropMessage _ lastPrice price _ email =>
      TopicArn q = SNS_PRICE_DROP_TOPIC_ARN cfg /\
      PublishSubject q = PriceDropAlert (marketplace_name mp) /\
      (exists last, lastPrice = Some last /\ (price < last)%Q) /\
      non_empty email = true
  | RestockMessage _ _ email =>
      TopicArn q = SNS_STOCK_RESTOCK_TOPIC_ARN cfg /\
      PublishSubject q = StockRestockAlert (marketplace_name mp) /\
      non_empty email = true
  end.

(** The record an update leaves under [productUrl]. *)
Definition updated_item (mp : Marketplace) (old : option Item)
  (productUrl : string) (price : number) (nowInStock : bool)
  (stamp : string) : Item :=
  <[ "updated_at"%string := AString stamp ]>
    (<[ "in_stock"%string := ABool nowInStock ]>
       (<[ last_price_field mp := ANumber price ]>
          (match old with
           | Some item => item
           | None => {[ "product_url"%string := AString productUrl ]}
           end))).

(* ===================================================================== *)
(** ** Sample data *)

Definition sample_config : Config :=
  mkConfig "products" "users" "arn:price-drop" "arn:restock".

Definition sample_url : string := "https://shop.example/p/1".

Definition sample_item : Item :=
  <[ "product_url"%string := AString sample_url ]>
    (<[ "user_id"%string := AString "u1" ]>
       (<[ "last_price"%string := ANumber 600000%Q ]>
          (<[ "in_stock"%string := ABool true ]> ∅))).

(** A record without its owner. *)
Definition sample_orphan : Item :=
  <[ "product_url"%string := AString sample_url ]> ∅.

Definition sample_world : World :=
  mkWorld (<[ sample_url := sample_item ]> ∅) [].

(** Collaborators that serve the same [page] for every URL, know no user,
    accept every update, and deliver notifications or not. *)
Definition sample_services (page : text) (delivers : bool) : Services :=
  mkServices
    (fun _ _ => Normal page)
    (fun _ _ => Normal None)
    (fun _ _ => if delivers then Normal tt else Throw (ServiceError "sns"))
    (fun _ _ => Normal tt)
    (fun _ => "2026-01-01T00:00:00.000Z"%string).

(** Collaborators as [sample_services], with a fetch that answers
    [fetch] and a store that accepts updates or not. *)
Definition faulty_services (fetch : completion text)
  (delivers accepts : bool) : Services :=
  mkServices
    (fun _ _ => fetch)
    (fun _ _ => Normal None)
    (fun _ _ => if delivers then Normal tt else Throw (ServiceError "sns"))
    (fun _ _ => if accepts then Normal tt else Throw (ServiceError "ddb"))
    (fun _ => "2026-01-01T00:00:00.000Z"%string).

(** A page of marketplace A below, and one above, the sample last price. *)
Definition cheaper_page : text := js "{`priceAmount`:501282.85}".
Definition dearer_page : text := js "{`priceAmount`:700000}".

(** The world after a pass over the sample record with the cheaper page. *)
Definition sample_after : World :=
  snd (for_items sample_config (sample_services cheaper_page true) amazon
         [sample_item] (0, sample_world)).

(* ===================================================================== *)
(** * Properties *)

(** ** Lists of characters *)

Lemma take_drop_while (p : ascii -> bool) (s : text) :
  take_while p s ++ drop_while p s = s.
Proof.
  induction s as [|c s IH]; simpl; [reflexivity|].
  destruct (p c); simpl; [now rewrite IH | reflexivity].
Qed.

Lemma take_while_forallb (p : ascii -> bool) (s : text) :
  forallb p (take_while p s) = true.
Proof.
  induction s as [|c s IH]; simpl; [reflexivity|].
  destruct (p c) eqn:E; simpl; [now rewrite E, IH | reflexivity].
Qed.

Lemma take_while_app (p : ascii -> bool) (ds rest : text) :
  forallb p ds = true ->
  (match rest with c :: _ => p c = false | [] => True end) ->
  take_while p (ds ++ rest) = ds /\ drop_while p (ds ++ rest) = rest.
Proof.
  intros Hds Hrest.
  induction ds as [|d ds IH]; simpl in *.
  - destruct rest as [|c rest]; simpl; [auto|]. rewrite Hrest; auto.
  - apply andb_prop in Hds as [Hd Hds]. rewrite Hd.
    destruct (IH Hds) as [-> ->]; auto.
Qed.

Lemma firstn_consumed (a b : text) :
  firstn (length (a ++ b) - length b) (a ++ b) = a.
Proof.
  rewrite length_app.
  replace (length a + length b - length b) with (length a) by lia.
  rewrite firstn_app, Nat.sub_diag, firstn_all. simpl. apply app_nil_r.
Qed.

Lemma firstn_consumed_by (p : ascii -> bool) (s : text) :
  firstn (length s - length (drop_while p s)) s = take_while p s.
Proof.
  rewrite <- (take_drop_while p s) at 1 3.
  apply firstn_consumed.
Qed.

(** ** The matcher on literals and on repetitions *)

Lemma m_Lit {R} ci (p s : text) cap (k : text -> option text -> option R) :
  m ci (Lit p) s cap k =
  match starts_with ci p s with
  | Some rest => k rest cap
  | None => None
  end.
Proof.
  revert s; induction p as [|c p IH]; intros s; simpl; [reflexivity|].
  destruct s as [|a s]; [reflexivity|].
  destruct (char_eq ci c a); [apply IH | reflexivity].
Qed.

(** A greedy repetition stops where the class stops as soon as the rest of
    the pattern cannot start inside the class, or accepts there. *)
Lemma star_greedy {R} (p : ascii -> bool) (s : text) (k : text -> option R) :
  (k (drop_while p s) <> None \/
   forall c rest, p c = true -> k (c :: rest) = None) ->
  star p s k = k (drop_while p s).
Proof.
  induction s as [|c s IH]; intros H; simpl; [reflexivity|].
  destruct (p c) eqn:E; [|reflexivity].
  simpl in H. rewrite E in H. rewrite (IH H).
  destruct (k (drop_while p s)) eqn:Ek; [reflexivity|].
  destruct H as [H|H]; [congruence|].
  now rewrite (H c s E).
Qed.

Lemma String_match_find ci r s :
  String_match ci r s = find_first (match_here ci r) s.
Proof.
  induction s as [|c s IH]; simpl; [reflexivity|].
  destruct (match_here ci r (c :: s)); [reflexivity | exact IH].
Qed.

Lemma find_first_ext {A} (f g : text -> option A) s :
  (forall t, f t = g t) -> find_first f s = find_first g s.
Proof.
  intros E; induction s as [|c s IH]; simpl; rewrite E; [reflexivity|].
  destruct (g (c :: s)); [reflexivity | exact IH].
Qed.

Lemma find_first_map {A B} (f : text -> option A) (g : text -> option B)
  (h : A -> B) s :
  (forall t, g t = match f t with Some a => Some (h a) | None => None end) ->
  find_first g s = match find_first f s with Some a => Some (h a) | None => None end.
Proof.
  intros E; induction s as [|c s IH]; cbn [find_first]; rewrite E.
  - destruct (f []); reflexivity.
  - destruct (f (c :: s)); [reflexivity | exact IH].
Qed.

Lemma find_first_sound {A} (f : text -> option A) s a :
  find_first f s = Some a -> exists pre suf, s = pre ++ suf /\ f suf = Some a.
Proof.
  induction s as [|c s IH]; cbn [find_first].
  - destruct (f []) eqn:E; [|discriminate].
    intros [= ->]; exists [], []; auto.
  - destruct (f (c :: s)) eqn:E.
    + intros [= ->]; exists [], (c :: s); auto.
    + intros H; destruct (IH H) as (pre & suf & -> & Hs).
      exists (c :: pre), suf; auto.
Qed.

Lemma find_first_Some {A} (f : text -> option A) s :
  find_first f s <> None <->
  exists pre suf, s = pre ++ suf /\ f suf <> None.
Proof.
  split.
  - induction s as [|c s IH]; simpl.
    + destruct (f []) eqn:E; [|congruence].
      intros _; exists [], []; split; [reflexivity | congruence].
    + destruct (f (c :: s)) eqn:E.
      * intros _; exists [], (c :: s); split; [reflexivity | congruence].
      * intros H; destruct (IH H) as (pre & suf & -> & Hs).
        exists (c :: pre), suf; split; [reflexivity | exact Hs].
  - intros (pre & suf & -> & Hs).
    induction pre as [|c pre IH]; simpl.
    + destruct suf; simpl; destruct (f _); congruence.
    + destruct (f (c :: pre ++ suf)); [congruence | exact IH].
Qed.

Lemma test_Lit ci (p s : text) :
  RegExp_test ci (Lit p) s = occurs ci p s.
Proof.
  unfold RegExp_test, occurs. rewrite String_match_find.
  induction s as [|c s IH]; simpl; unfold match_here; rewrite m_Lit.
  - destruct (starts_with ci p []); reflexivity.
  - destruct (starts_with ci p (c :: s)); [reflexivity | exact IH].
Qed.

Lemma starts_with_ci p s rest :
  starts_with true p s = Some rest <->
  exists w, s = w ++ rest /\ same_letters w p.
Proof.
  unfold same_letters. revert s; induction p as [|c p IH]; intros s; simpl.
  - split.
    + intros [= ->]; exists []; auto.
    + intros (w & -> & Hw). destruct w; [reflexivity | discriminate].
  - destruct s as [|a s].
    + split; [discriminate|].
      intros (w & Hs & Hw). destruct w; discriminate.
    + unfold char_eq. destruct (Ascii.eqb_spec (canonicalize c) (canonicalize a)) as [E|E].
      * rewrite IH. split.
        -- intros (w & -> & Hw). exists (a :: w); simpl. now rewrite Hw, E.
        -- intros (w & Hs & Hw). destruct w as [|b w]; [discriminate|].
           simpl in *. injection Hs as -> ->. injection Hw as _ Hw.
           exists w; auto.
      * split; [discriminate|].
        intros (w & Hs & Hw). destruct w as [|b w]; [discriminate|].
        simpl in *. injection Hs as -> ->. injection Hw as Hb _. congruence.
Qed.

Lemma starts_with_cs p s rest :
  starts_with false p s = Some rest <-> s = p ++ rest.
Proof.
  revert s; induction p as [|c p IH]; intros s; simpl.
  - split; [intros [= ->]; reflexivity | intros ->; reflexivity].
  - destruct s as [|a s]; [split; discriminate|].
    unfold char_eq. destruct (Ascii.eqb_spec c a) as [->|E].
    + rewrite IH. split; [intros ->; reflexivity | intros [= ->]; reflexivity].
    + split; [discriminate | intros [= -> _]; congruence].
Qed.

Lemma occurs_ci p s : occurs true p s = true <-> contains_ci p s.
Proof.
  unfold occurs, contains_ci.
  destruct (find_first (starts_with true p) s) eqn:E.
  - split; [intros _ | reflexivity].
    assert (H : find_first (starts_with true p) s <> None) by congruence.
    apply find_first_Some in H as (pre & suf & -> & Hs).
    destruct (starts_with true p suf) as [rest|] eqn:Er; [|congruence].
    apply starts_with_ci in Er as (w & -> & Hw).
    exists pre, w, rest; auto.
  - split; [discriminate|].
    intros (pre & w & post & -> & Hw). exfalso.
    assert (H : find_first (starts_with true p) (pre ++ w ++ post) <> None).
    { apply find_first_Some. exists pre, (w ++ post); split; [reflexivity|].
      assert (Hs : starts_with true p (w ++ post) = Some post)
        by (apply starts_with_ci; exists w; auto).
      congruence. }
    congruence.
Qed.

Lemma m_PlusClass {R} ci p s cap (k : text -> option text -> option R) :
  (k (drop_while p s) cap <> None \/
   forall c rest, p c = true -> k (c :: rest) cap = None) ->
  m ci (PlusClass p) s cap k =
  if is_nil (take_while p s) then None else k (drop_while p s) cap.
Proof.
  intros H. destruct s as [|a s]; simpl; [reflexivity|].
  simpl in H. destruct (p a) eqn:E; simpl; [|reflexivity].
  now apply star_greedy.
Qed.

Lemma test_Alt ci r1 r2 s :
  RegExp_test ci (Alt r1 r2) s = RegExp_test ci r1 s || RegExp_test ci r2 s.
Proof.
  unfold RegExp_test. induction s as [|c s IH]; simpl; unfold match_here; simpl.
  - destruct (m ci r1 [] None _); [reflexivity|].
    destruct (m ci r2 [] None _); reflexivity.
  - destruct (m ci r1 (c :: s) None _); [reflexivity|].
    destruct (m ci r2 (c :: s) None _).
    + now rewrite orb_true_r.
    + exact IH.
Qed.

(** ** Group 1 of a match is defined *)

Lemma star_ext {R} p s (k k' : text -> option R) :
  (forall s', k s' = k' s') -> star p s k = star p s k'.
Proof.
  intros E; induction s as [|c s IH]; cbn [star]; [apply E|].
  now rewrite IH, E.
Qed.

Lemma lazy_ext {R} n p s (k k' : text -> option R) :
  (forall s', k s' = k' s') -> lazy n p s k = lazy n p s k'.
Proof.
  intros E; revert s; induction n as [|n IH]; intros s; cbn [lazy];
    rewrite E; [reflexivity|].
  destruct (k' s); [reflexivity|].
  destruct s as [|c s]; [reflexivity|]. now rewrite IH.
Qed.

Lemma m_ext {R} ci r : forall s cap (k k' : text -> option text -> option R),
  (forall s' c', k s' c' = k' s' c') -> m ci r s cap k = m ci r s cap k'.
Proof.
  induction r as [|c|p|r1 IH1 r2 IH2|r1 IH1 r2 IH2|p|n p|r1 IH1];
    intros s cap k k' E; cbn [m].
  - apply E.
  - destruct s as [|a s]; [reflexivity|]. now rewrite E.
  - destruct s as [|a s]; [reflexivity|]. now rewrite E.
  - apply IH1. intros s' c'. now apply IH2.
  - now rewrite (IH1 s cap k k' E), (IH2 s cap k k' E).
  - apply star_ext. intros s'. apply E.
  - apply lazy_ext. intros s'. apply E.
  - apply IH1. intros s' c'. apply E.
Qed.

Lemma m_sets_group {R} ci r :
  forall s cap (k : text -> option text -> option R),
    cap <> None \/ sets_group r = true ->
    m ci r s cap k = m ci r s cap (with_group k).
Proof.
  induction r as [|c|p|r1 IH1 r2 IH2|r1 IH1 r2 IH2|p|n p|r1 IH1];
    intros s cap k H; cbn [m sets_group] in *.
  - destruct H as [H|H]; [|discriminate]. destruct cap; [reflexivity|].
    now elim H.
  - destruct H as [H|H]; [|discriminate]. destruct cap; [reflexivity|].
    now elim H.
  - destruct H as [H|H]; [|discriminate]. destruct cap; [reflexivity|].
    now elim H.
  - destruct H as [H|H].
    + rewrite (IH1 s cap _ (or_introl H)).
      rewrite (IH1 s cap (fun s' cap' => m ci r2 s' cap' (with_group k))
                 (or_introl H)).
      apply m_ext. intros s' [t|]; [|reflexivity]. cbn [with_group].
      apply IH2. left; discriminate.
    + apply orb_true_iff in H as [H|H].
      * rewrite (IH1 s cap _ (or_intror H)).
        rewrite (IH1 s cap (fun s' cap' => m ci r2 s' cap' (with_group k))
                   (or_intror H)).
        apply m_ext. intros s' [t|]; [|reflexivity]. cbn [with_group].
        apply IH2. left; discriminate.
      * apply m_ext. intros s' c'. apply IH2. now right.
  - assert (H' : cap <> None \/ sets_group r1 = true)
      by (destruct H as [H|H]; [now left|];
          apply andb_true_iff in H as [H _]; now right).
    assert (H'' : cap <> None \/ sets_group r2 = true)
      by (destruct H as [H|H]; [now left|];
          apply andb_true_iff in H as [_ H]; now right).
    now rewrite (IH1 s cap k H'), (IH2 s cap k H'').
  - destruct H as [H|H]; [|discriminate]. apply star_ext. intros s'.
    destruct cap; [reflexivity | now elim H].
  - destruct H as [H|H]; [|discriminate]. apply lazy_ext. intros s'.
    destruct cap; [reflexivity | now elim H].
  - apply m_ext. intros s' c'. reflexivity.
Qed.

Lemma star_result {R} p s (k : text -> option R) x :
  star p s k = Some x -> exists s', k s' = Some x.
Proof.
  induction s as [|c s IH]; cbn [star]; [eauto|].
  destruct (p c); [|eauto].
  destruct (star p s k) eqn:E; [|eauto].
  intros [= <-]. now apply IH.
Qed.

Lemma lazy_result {R} n p s (k : text -> option R) x :
  lazy n p s k = Some x -> exists s', k s' = Some x.
Proof.
  revert s; induction n as [|n IH]; intros s; cbn [lazy].
  - destruct (k s) eqn:E; [intros [= <-]; eauto | discriminate].
  - destruct (k s) eqn:E; [intros [= <-]; eauto|].
    destruct s as [|c s]; [discriminate|].
    destruct (p c); [apply IH | discriminate].
Qed.

Lemma m_result {R} ci r :
  forall s cap (k : text -> option text -> option R) x,
    m ci r s cap k = Some x -> exists s' c', k s' c' = Some x.
Proof.
  induction r as [|c|p|r1 IH1 r2 IH2|r1 IH1 r2 IH2|p|n p|r1 IH1];
    intros s cap k x; cbn [m].
  - eauto.
  - destruct s as [|a s]; [discriminate|].
    destruct (char_eq ci c a); [eauto | discriminate].
  - destruct s as [|a s]; [discriminate|].
    destruct (p a); [eauto | discriminate].
  - intros H. apply IH1 in H as (s' & c' & H). now apply IH2 in H.
  - destruct (m ci r1 s cap k) eqn:E.
    + intros [= <-]. now apply IH1 in E.
    + apply IH2.
  - intros H. apply star_result in H as (s' & H). eauto.
  - intros H. apply lazy_result in H as (s' & H). eauto.
  - intros H. apply IH1 in H as (s' & c' & H). eauto.
Qed.

(** A match of a pattern that always goes through its group has group 1
    defined: [group1] never stands for [undefined] on such a pattern. *)
Lemma String_match_group ci r s g :
  sets_group r = true -> String_match ci r s = Some g -> g <> None.
Proof.
  intros Hr. rewrite String_match_find. intros H.
  apply find_first_sound in H as (pre & suf & _ & H).
  unfold match_here in H. rewrite (m_sets_group ci r) in H by now right.
  apply m_result in H as (s' & c' & H). unfold with_group in H.
  destruct c'; [|discriminate]. injection H as <-. discriminate.
Qed.

Lemma capturing_patterns_set_group :
  forallb sets_group capturing_patterns = true.
Proof. reflexivity. Qed.

(** ** Character classes *)

Lemma space_not_digit c : is_space c = true -> is_digit c = false.
Proof. destruct c as [[] [] [] [] [] [] [] []]; vm_compute; congruence. Qed.

Lemma is_nil_false (s : text) :
  is_nil s = false -> exists c s', s = c :: s'.
Proof. destruct s as [|c s']; [discriminate | eauto]. Qed.

Lemma take_while_head (p : ascii -> bool) s c s' :
  take_while p s = c :: s' -> p c = true /\ exists t, s = c :: t.
Proof.
  destruct s as [|a s]; simpl; [discriminate|].
  destruct (p a) eqn:E; [|discriminate].
  intros [= -> _]; eauto.
Qed.

(** ** The patterns of marketplace B *)

Lemma match_here_priceParam s :
  match_here false re_priceParam s =
  match price_param_here s with
  | Some n => Some (Some n)
  | None => None
  end.
Proof.
  unfold match_here, re_priceParam, price_param_here, Seqs.
  cbn [m]. rewrite m_Lit.
  destruct (starts_with false (str "price=") s) as [rest|]; [|reflexivity].
  cbn [m]. rewrite m_PlusClass.
  2:{ left. unfold Opt. cbn [m].
      match goal with
      | |- context [match ?x with Some _ => _ | None => _ end] => destruct x
      end; congruence. }
  unfold number_literal.
  destruct (is_nil (take_while is_digit rest)) eqn:Hip; [reflexivity|].
  unfold Opt. cbn [m].
  destruct (drop_while is_digit rest) as [|c r] eqn:Hd.
  - cbn. replace (length rest - 0) with (length rest) by lia.
    rewrite firstn_all, <- (take_drop_while is_digit rest) at 1.
    rewrite Hd, app_nil_r. now rewrite Hip.
  - unfold char_eq, is_char.
    destruct (Ascii.eqb "." c) eqn:Hc.
    + apply Ascii.eqb_eq in Hc; subst c.
      change (m false (PlusClass is_digit) r None ?k)
        with (m false (PlusClass is_digit) r None k).
      rewrite m_PlusClass by (left; congruence).
      destruct (is_nil (take_while is_digit r)) eqn:Hfp.
      * rewrite <- Hd, firstn_consumed_by. now rewrite Hip.
      * assert (E : rest = (take_while is_digit rest ++ "."%char
                              :: take_while is_digit r) ++ drop_while is_digit r).
        { rewrite <- app_assoc. simpl. rewrite take_drop_while, <- Hd.
          now rewrite take_drop_while. }
        set (n := take_while is_digit rest ++ _ :: take_while is_digit r) in *.
        assert (T : firstn (length rest - length (drop_while is_digit r)) rest
                    = n) by (rewrite E; apply firstn_consumed).
        rewrite T. subst n.
        destruct (take_while is_digit rest); [discriminate|]. reflexivity.
    + rewrite <- Hd, firstn_consumed_by. now rewrite Hip.
Qed.

Lemma String_match_priceParam s :
  String_match false re_priceParam s =
  match price_param s with
  | Some n => Some (Some n)
  | None => None
  end.
Proof.
  unfold price_param. rewrite String_match_find.
  apply (find_first_map price_param_here (match_here false re_priceParam) Some).
  apply match_here_priceParam.
Qed.

Lemma match_here_Stok s :
  match_here true re_Stok s =
  match stok_here s with
  | Some ds => Some (Some ds)
  | None => None
  end.
Proof.
  unfold match_here, re_Stok, stok_here, Seqs.
  cbn [m]. rewrite m_Lit.
  destruct (starts_with true (str "Stok:") s) as [rest|]; [|reflexivity].
  rewrite star_greedy.
  2:{ right. intros c r Hc. cbn [m PlusClass].
      now rewrite (space_not_digit c Hc). }
  rewrite m_PlusClass by (left; discriminate).
  destruct (is_nil (take_while is_digit (drop_while is_space rest)));
    [reflexivity|].
  now rewrite firstn_consumed_by.
Qed.

Lemma String_match_Stok s :
  String_match true re_Stok s =
  match find_first stok_here s with
  | Some ds => Some (Some ds)
  | None => None
  end.
Proof.
  rewrite String_match_find.
  apply (find_first_map stok_here (match_here true re_Stok) Some).
  apply match_here_Stok.
Qed.

(* ===================================================================== *)
(** ** Change decision *)

Lemma lt_number_spec (a b : number) : lt_number a b = true <-> (a < b)%Q.
Proof.
  unfold lt_number. destruct (Qlt_le_dec a b) as [H|H].
  - split; auto.
  - split; [discriminate|]. intros H'. exfalso. exact (Qlt_not_le _ _ H' H).
Qed.

(** C1.  For every previous state (optional last price, boolean last stock)
    and every reading with a price, the decision has: [nowInStock] is the
    reading's stock when it is known and the previous stock otherwise;
    [priceDropped] holds exactly when a last price is defined and the new
    price is strictly below it; [restocked] holds exactly when the previous
    stock is false and [nowInStock] is true. *)
Theorem decide_change_spec (lastPrice : option number) (prevInStock : bool)
  (price : number) (stock : option bool) :
  let d := decide_change lastPrice prevInStock price stock in
  (forall b, stock = Some b -> nowInStock d = b) /\
  (stock = None -> nowInStock d = prevInStock) /\
  (priceDropped d = true <->
   exists last, lastPrice = Some last /\ (price < last)%Q) /\
  (restocked d = true <-> prevInStock = false /\ nowInStock d = true).
Proof.
  cbn. repeat split.
  - intros b ->. reflexivity.
  - intros ->. reflexivity.
  - destruct lastPrice as [last|]; [|discriminate].
    intros H. exists last. split; [reflexivity | now apply lt_number_spec].
  - intros (last & -> & H). now apply lt_number_spec.
  - destruct prevInStock; [discriminate | reflexivity].
  - destruct prevInStock; [discriminate|]. destruct stock as [[]|]; auto.
  - intros [-> H]. rewrite H. reflexivity.
Qed.

Lemma decide_change_witness :
  let d := decide_change (Some 600000%Q) true 501282.85%Q None in
  nowInStock d = true /\ priceDropped d = true /\ restocked d = false.
Proof.
  pose proof (decide_change_spec (Some 600000%Q) true 501282.85%Q None)
    as (_ & Hnone & Hdrop & Hre).
  cbv zeta in *. split; [|split].
  - apply Hnone. reflexivity.
  - apply Hdrop. exists 600000%Q. split; reflexivity.
  - destruct (restocked _) eqn:E; [|reflexivity].
    destruct Hre as [Hre _]. destruct (Hre eq_refl) as [H _]. discriminate H.
Defined.

(* ===================================================================== *)
(** ** The per-item cycle *)

Section HandlerProperties.
Variable cfg : Config.
Variable svc : Services.
Variable mp : Marketplace.

Lemma for_items_cons item items acc :
  for_items cfg svc mp (item :: items) acc =
  for_items cfg svc mp items (for_item cfg svc mp acc item).
Proof. reflexivity. Qed.




(** C2.  For every scanned record with its required fields, when the page
    is fetched and the extractor yields a null price, the cycle ends by
    [continue]: no update is issued and the world (so the record's
    persisted last price, stock flag and time stamp) is left as it was. *)
Theorem null_price_skips_item (item : Item) (processed : nat) (w : World)
  (productUrl userId : string) (response : text) (reading : Reading) :
  as_string (item !! "product_url"%string) = Some productUrl ->
  as_string (item !! "user_id"%string) = Some userId ->
  axios_get svc productUrl w = Normal response ->
  extractPriceAndStock mp response = Normal reading ->
  price reading = None ->
  item_cycle cfg svc mp productUrl userId
    (item_lastPrice mp item) (item_prevInStock item) w = (Continue, w) /\
  for_item cfg svc mp (processed, w) item = (S processed, w).
Proof.
  intros Hu Hi Hget Hex Hp.
  assert (C : item_cycle cfg svc mp productUrl userId
                (item_lastPrice mp item) (item_prevInStock item) w
              = (Continue, w)).
  { unfold item_cycle, bind, call, lift. rewrite Hget. cbn.
    unfold call. rewrite Hex, Hp. reflexivity. }
  split; [exact C|].
  unfold for_item. rewrite Hu, Hi, C. reflexivity.
Qed.

(** C8.  For every record whose notification dispatch raises, the error
    is caught at the scope of the record: the update that would follow is
    not issued, so the products table (and with it the record's persisted
    last price, stock flag and time stamp) is as before, the record is
    counted, and the loop goes on with the next record. *)
Theorem notification_error_keeps_state (item : Item) (processed : nat)
  (w : World) (productUrl userId : string) (response : text)
  (reading : Reading) (p : number) (user : option Item) (e : exn) :
  let lastPrice := item_lastPrice mp item in
  let d := decide_change lastPrice (item_prevInStock item) p
             (inStock reading) in
  let email := email_of user in
  as_string (item !! "product_url"%string) = Some productUrl ->
  as_string (item !! "user_id"%string) = Some userId ->
  axios_get svc productUrl w = Normal response ->
  extractPriceAndStock mp response = Normal reading ->
  price reading = Some p ->
  users_get svc userId w = Normal user ->
  (priceDropped d = true /\
   non_empty (SNS_PRICE_DROP_TOPIC_ARN cfg) = true /\
   sns_send svc
     (price_drop_publish cfg mp productUrl userId email lastPrice p) w
   = Throw e)
  \/
  (restocked d = true /\
   non_empty (SNS_STOCK_RESTOCK_TOPIC_ARN cfg) = true /\
   forall w', sns_send svc
                (restock_publish cfg mp productUrl userId email) w'
              = Throw e) ->
  exists e' w',
    item_cycle cfg svc mp productUrl userId lastPrice
      (item_prevInStock item) w = (Raised e', w') /\
    products w' = products w /\
    for_item cfg svc mp (processed, w) item = (S processed, w') /\
    forall rest,
      for_items cfg svc mp (item :: rest) (processed, w) =
      for_items cfg svc mp rest (S processed, w').
Proof.
  intros lastPrice d email Hu Hi Hget Hex Hp Huser H.
  assert (C : exists e' w',
             item_cycle cfg svc mp productUrl userId lastPrice
               (item_prevInStock item) w = (Raised e', w') /\
             products w' = products w).
  { unfold item_cycle, bind, call, lift. rewrite Hget.
    cbn -[decide_change]. unfold call. rewrite Hex, Hp.
    fold lastPrice. fold d.
    destruct H as [(Hd & Ht & Hs) | (Hr & Ht & Hs)].
    - rewrite Hd, Ht. cbn -[decide_change]. rewrite Huser. fold email.
      unfold publish, bind, call. rewrite Hs. eauto.
    - rewrite Hr, Ht, orb_true_r. cbn -[decide_change].
      rewrite Huser. fold email.
      destruct (priceDropped d && non_empty (SNS_PRICE_DROP_TOPIC_ARN cfg)).
      + unfold publish at 1. unfold bind, call.
        destruct (sns_send svc _ w) as [[]|e1]; [|eauto].
        unfold publish, bind, call. rewrite Hs. cbn. eauto.
      + unfold ret, publish, bind, call. rewrite Hs. eauto. }
  destruct C as (e' & w' & C & Hw).
  exists e', w'. split; [exact C|]. split; [exact Hw|].
  assert (F : for_item cfg svc mp (processed, w) item = (S processed, w')).
  { unfold for_item. rewrite Hu, Hi. fold lastPrice. rewrite C. reflexivity. }
  split; [exact F|].
  intros rest. rewrite for_items_cons, F. reflexivity.
Qed.

End HandlerProperties.

Lemma null_price_skips_item_witness :
  for_item sample_config (sample_services [] true) (tokopedia plain_text)
    (0, sample_world) sample_item = (1, sample_world).
Proof.
  apply (null_price_skips_item sample_config (sample_services [] true)
           (tokopedia plain_text) sample_item 0 sample_world sample_url "u1"
           [] (mkReading None None));
    reflexivity.
Defined.

Lemma notification_error_keeps_state_witness :
  exists w',
    for_item sample_config
      (sample_services (js "`priceAmount`: 501282.85") false) amazon
      (0, sample_world) sample_item = (1, w') /\
    products w' = products sample_world.
Proof.
  destruct (notification_error_keeps_state sample_config
              (sample_services (js "`priceAmount`: 501282.85") false) amazon
              sample_item 0 sample_world sample_url "u1"
              (js "`priceAmount`: 501282.85")
              (mkReading (Some 501282.85%Q) None) 501282.85%Q None
              (ServiceError "sns"))
    as (e' & w' & _ & Hw & F & _);
    try reflexivity.
  - left. repeat split; reflexivity.
  - exists w'. split; [exact F | exact Hw].
Defined.



(* ===================================================================== *)
(** ** The extractors as chains of attempts *)

Lemma take_while_id (p : ascii -> bool) (s : text) :
  forallb p s = true -> take_while p s = s.
Proof.
  induction s as [|c s IH]; simpl; [reflexivity|].
  intros H. apply andb_prop in H as [Hc Hs]. now rewrite Hc, IH.
Qed.

Lemma parseInt_digits (ds : text) :
  forallb is_digit ds = true -> is_nil ds = false ->
  parseInt ds = Some (inject_Z (digits_value ds)).
Proof.
  intros Hd Hn. unfold parseInt. now rewrite (take_while_id _ _ Hd), Hn.
Qed.

Lemma lt_number_inject_Z (z : Z) : lt_number 0%Q (inject_Z z) = (0 <? z)%Z.
Proof.
  destruct (0 <? z)%Z eqn:E.
  - apply lt_number_spec. apply Z.ltb_lt in E.
    change 0%Q with (inject_Z 0). now rewrite <- Zlt_Qlt.
  - destruct (lt_number 0%Q (inject_Z z)) eqn:L; [|reflexivity].
    apply lt_number_spec in L. change 0%Q with (inject_Z 0) in L.
    rewrite <- Zlt_Qlt in L. apply Z.ltb_lt in L. congruence.
Qed.

Lemma stok_here_digits s ds :
  stok_here s = Some ds -> forallb is_digit ds = true /\ is_nil ds = false.
Proof.
  unfold stok_here.
  destruct (starts_with true (str "Stok:") s) as [rest|]; [|discriminate].
  destruct (is_nil (take_while is_digit (drop_while is_space rest))) eqn:E;
    [discriminate|].
  intros [= <-]. split; [apply take_while_forallb | exact E].
Qed.

Lemma test_outOfStock txt :
  RegExp_test true re_outOfStock txt = out_of_stock_keyword txt.
Proof.
  unfold re_outOfStock, out_of_stock_keyword.
  rewrite !test_Alt, !test_Lit.
  assert (E : occurs true (str "Stok habis") txt
              = occurs true (str "stok habis") txt).
  { unfold occurs. rewrite (find_first_ext (starts_with true (str "Stok habis"))
                             (starts_with true (str "stok habis")));
      [reflexivity | intros t; reflexivity]. }
  rewrite E. destruct (occurs true (str "stok habis") txt); reflexivity.
Qed.

Ltac break_option :=
  match goal with
  | |- context [match ?x with Some _ => _ | None => _ end] =>
      lazymatch x with
      | context [match _ with Some _ => _ | None => _ end] => fail
      | _ => destruct x eqn:?
      end
  end.

Ltac by_cases_on_attempts :=
  cbn [first_some bind_c try_catch];
  repeat (break_option; cbn [first_some bind_c try_catch]);
  try reflexivity; try congruence.

Lemma extractAmazon_chain html :
  extractAmazonPriceAndStock html =
  Normal (mkReading
            (first_some [amazon_priceAmount html; amazon_buyBox html;
                         amazon_summary html])
            (amazon_stock html)).
Proof.
  unfold extractAmazonPriceAndStock, amazon_priceAmount, amazon_buyBox,
    amazon_summary, amazon_stock, currency_cleanup, re_InStock,
    re_CurrentlyUnavailable.
  rewrite !test_Lit. by_cases_on_attempts.
Qed.

Lemma extractLazada_chain JSON_parse html :
  extractLazadaPriceAndStock JSON_parse html =
  Normal (mkReading
            (first_some [lazada_tracking_price JSON_parse html;
                         lazada_raw_key html])
            (lazada_stock html)).
Proof.
  unfold extractLazadaPriceAndStock, lazada_tracking_price, lazada_tracking,
    lazada_raw_key, lazada_stock, re_StokHabis, re_schemaInStock.
  rewrite !test_Lit. cbn [first_some bind_c try_catch].
  destruct (or_else (String_match false re_tracking_dq html) _) as [g|];
    cbn [first_some bind_c try_catch].
  - destruct (JSON_parse (group1 g)) as [tracking|e];
      cbn [first_some bind_c try_catch].
    + destruct (truthy tracking); cbn [first_some bind_c try_catch].
      * destruct (get_pdt_price tracking) as [[| | |pdt| |]|];
          by_cases_on_attempts.
      * by_cases_on_attempts.
    + by_cases_on_attempts.
  - by_cases_on_attempts.
Qed.

Lemma extractTokopedia_chain cheerio_text html :
  extractTokopediaPriceAndStock cheerio_text html =
  Normal (mkReading
            (match price_param html with
             | Some _ => tokopedia_param html
             | None => tokopedia_Rp (cheerio_text html)
             end)
            (tokopedia_stock (cheerio_text html))).
Proof.
  unfold extractTokopediaPriceAndStock, tokopedia_param, tokopedia_Rp,
    tokopedia_stock, stok_quantity.
  rewrite String_match_priceParam, String_match_Stok, test_outOfStock.
  f_equal. f_equal.
  - destruct (price_param html) as [n|]; [reflexivity|].
    by_cases_on_attempts.
  - destruct (find_first stok_here (cheerio_text html)) as [ds|] eqn:E;
      [|reflexivity].
    apply find_first_sound in E as (pre & suf & _ & E).
    apply stok_here_digits in E as [Hd Hn].
    cbn [group1]. rewrite (parseInt_digits ds Hd Hn).
    now rewrite lt_number_inject_Z.
Qed.

(* ===================================================================== *)
(** ** Marketplace A: order of the price attempts *)

Lemma lazy_bound {R} n p s (k : text -> option R) :
  lazy n p s k <> None -> exists i, i <= n /\ k (skipn i s) <> None.
Proof.
  revert s; induction n as [|n IH]; intros s; cbn [lazy].
  - destruct (k s) eqn:E; [|intros H; congruence].
    intros _; exists 0; split; [lia | rewrite skipn_O; congruence].
  - destruct (k s) eqn:E.
    + intros _; exists 0; split; [lia | rewrite skipn_O; congruence].
    + destruct s as [|c s]; [intros H; congruence|].
      destruct (p c); [|intros H; congruence].
      intros H; destruct (IH s H) as (i & Hi & Hk).
      exists (S i); split; [lia | exact Hk].
Qed.

Lemma summary_window html :
  String_match false re_summary html <> None ->
  exists pre gap post,
    html = pre ++ str "Product Summary:" ++ gap
               ++ str "One-time purchase:" ++ post /\
    length gap <= 200.
Proof.
  rewrite String_match_find. intros H.
  apply find_first_Some in H as (pre & suf & -> & H).
  unfold match_here, re_summary, Seqs in H. cbn [m] in H.
  rewrite m_Lit in H.
  destruct (starts_with false (str "Product Summary:") suf) as [rest|] eqn:E1;
    [|now elim H].
  apply starts_with_cs in E1 as ->.
  apply lazy_bound in H as (i & Hi & H).
  rewrite m_Lit in H.
  destruct (starts_with false (str "One-time purchase:") (skipn i rest))
    as [post|] eqn:E2; [|now elim H].
  apply starts_with_cs in E2.
  exists pre, (firstn i rest), post. split.
  - rewrite <- E2, firstn_skipn. reflexivity.
  - rewrite length_firstn. lia.
Qed.

(** C4.  For every page of marketplace A the price is the first success of
    the chain: the numeric [priceAmount] field, then the buy-box
    [displayPrice], then the text after [One-time purchase:] found at most
    200 characters after [Product Summary:].  In particular a parseable
    [priceAmount] is reported whatever the buy-box holds. *)
Theorem amazon_price_precedence (html : text) :
  exists r,
    extractAmazonPriceAndStock html = Normal r /\
    price r = first_some [amazon_priceAmount html; amazon_buyBox html;
                          amazon_summary html] /\
    (forall v, amazon_priceAmount html = Some v -> price r = Some v) /\
    (forall v, amazon_priceAmount html = None ->
               amazon_buyBox html = Some v -> price r = Some v) /\
    (amazon_priceAmount html = None -> amazon_buyBox html = None ->
     price r = amazon_summary html) /\
    (amazon_summary html <> None ->
     exists pre gap post,
       html = pre ++ str "Product Summary:" ++ gap
                  ++ str "One-time purchase:" ++ post /\
       length gap <= 200).
Proof.
  eexists. split; [apply extractAmazon_chain|]. cbn [price].
  split; [reflexivity|]. repeat split.
  - intros v ->. reflexivity.
  - intros v -> ->. reflexivity.
  - intros -> ->. cbn. destruct (amazon_summary html); reflexivity.
  - unfold amazon_summary. intros H. apply summary_window.
    destruct (String_match false re_summary html); congruence.
Qed.

Lemma amazon_price_precedence_witness :
  exists r,
    extractAmazonPriceAndStock
      (js "{`desktop_buybox_group_1`:[{`displayPrice`:`USD 30.00`,`priceAmount`:29.99}]}")
    = Normal r /\
    price r = Some 29.99%Q.
Proof.
  destruct (amazon_price_precedence
              (js "{`desktop_buybox_group_1`:[{`displayPrice`:`USD 30.00`,`priceAmount`:29.99}]}"))
    as (r & Hr & _ & Hfirst & _).
  exists r. split; [exact Hr|]. apply Hfirst. reflexivity.
Defined.

(* ===================================================================== *)
(** ** No extractor raises *)

(** C7.  For every page, also a malformed or truncated one, each extractor
    returns a reading and raises nothing; when the tracking-data string of
    marketplace C is not valid JSON the error stays inside the extractor,
    the attempt counts as not found and the raw-key attempt decides the
    price. *)
Theorem extractors_do_not_raise (JSON_parse : text -> completion json)
  (cheerio_text : text -> text) (html : text) :
  is_normal (extractLazadaPriceAndStock JSON_parse html) = true /\
  is_normal (extractAmazonPriceAndStock html) = true /\
  is_normal (extractTokopediaPriceAndStock cheerio_text html) = true /\
  (forall jsonStr e,
      lazada_tracking html = Some jsonStr ->
      JSON_parse jsonStr = Throw e ->
      extractLazadaPriceAndStock JSON_parse html =
      Normal (mkReading (lazada_raw_key html) (lazada_stock html))).
Proof.
  rewrite extractLazada_chain, extractAmazon_chain, extractTokopedia_chain.
  repeat split.
  intros jsonStr e Ht He. f_equal. f_equal.
  unfold lazada_tracking_price. rewrite Ht, He. cbn.
  destruct (lazada_raw_key html); reflexivity.
Qed.

Lemma extractors_do_not_raise_witness :
  extractLazadaPriceAndStock reject_all
    (js "var pdpTrackingData = `{`; `pdt_price`:`Rp1.234`")
  = Normal (mkReading (Some 1234%Q) None).
Proof.
  destruct (extractors_do_not_raise reject_all plain_text
              (js "var pdpTrackingData = `{`; `pdt_price`:`Rp1.234`"))
    as (_ & _ & _ & H).
  rewrite (H (js "{") SyntaxError); reflexivity.
Defined.

(* ===================================================================== *)
(** ** Conflicting stock markers *)

Lemma occurs_ci_true p s : contains_ci p s -> occurs true p s = true.
Proof. apply occurs_ci. Qed.

(** C10.  For every page that holds both an in-stock and an out-of-stock
    marker (in any case) the order of the checks decides: marketplace A
    answers true when both [In Stock] and [Currently unavailable] occur,
    marketplace C answers false when both [Stok habis] and the
    [schema.org/InStock] marker occur. *)
Theorem conflicting_stock_markers (JSON_parse : text -> completion json)
  (html : text) :
  (contains_ci (str "In Stock") html ->
   contains_ci (str "Currently unavailable") html ->
   exists r, extractAmazonPriceAndStock html = Normal r /\
             inStock r = Some true) /\
  (contains_ci (str "Stok habis") html ->
   contains_ci (str "schema.org/InStock") html ->
   exists r, extractLazadaPriceAndStock JSON_parse html = Normal r /\
             inStock r = Some false).
Proof.
  split; intros H1 H2; eexists.
  - split; [apply extractAmazon_chain|]. cbn [inStock].
    unfold amazon_stock. now rewrite (occurs_ci_true _ _ H1).
  - split; [apply extractLazada_chain|]. cbn [inStock].
    unfold lazada_stock. now rewrite (occurs_ci_true _ _ H1).
Qed.

Lemma conflicting_stock_markers_witness :
  (exists r, extractAmazonPriceAndStock
               (str "currently unavailable. in stock soon") = Normal r /\
             inStock r = Some true) /\
  (exists r, extractLazadaPriceAndStock reject_all
               (str "http://schema.org/instock STOK HABIS") = Normal r /\
             inStock r = Some false).
Proof.
  split.
  - apply (conflicting_stock_markers reject_all
             (str "currently unavailable. in stock soon")).
    + exists (str "currently unavailable. "), (str "in stock"), (str " soon").
      split; reflexivity.
    + exists [], (str "currently unavailable"), (str ". in stock soon").
      split; reflexivity.
  - apply (conflicting_stock_markers reject_all
             (str "http://schema.org/instock STOK HABIS")).
    + exists (str "http://schema.org/instock "), (str "STOK HABIS"), [].
      split; reflexivity.
    + exists (str "http://"), (str "schema.org/instock"), (str " STOK HABIS").
      split; reflexivity.
Defined.

(* ===================================================================== *)
(** ** Marketplace B: stock from the visible text *)

Lemma digit_not_space c : is_digit c = true -> is_space c = false.
Proof.
  intros H. destruct (is_space c) eqn:E; [|reflexivity].
  apply space_not_digit in E. congruence.
Qed.

Lemma stok_here_Some s :
  stok_here s <> None <->
  exists w sp d post,
    s = w ++ sp ++ d :: post /\ same_letters w (str "Stok:") /\
    forallb is_space sp = true /\ is_digit d = true.
Proof.
  unfold stok_here. split.
  - destruct (starts_with true (str "Stok:") s) as [rest|] eqn:E;
      [|intros H; now elim H].
    apply starts_with_ci in E as (w & -> & Hw).
    destruct (is_nil (take_while is_digit (drop_while is_space rest))) eqn:N;
      [intros H; now elim H|].
    intros _. apply is_nil_false in N as (d & t & N).
    apply take_while_head in N as (Hd & post & Hpost).
    exists w, (take_while is_space rest), d, post.
    rewrite <- Hpost, take_drop_while.
    repeat split; [exact Hw | apply take_while_forallb | exact Hd].
  - intros (w & sp & d & post & -> & Hw & Hsp & Hd).
    assert (E : starts_with true (str "Stok:") (w ++ sp ++ d :: post)
                = Some (sp ++ d :: post))
      by (apply starts_with_ci; exists w; auto).
    rewrite E.
    destruct (take_while_app is_space sp (d :: post) Hsp (digit_not_space d Hd))
      as [_ ->].
    cbn [take_while]. rewrite Hd. cbn. congruence.
Qed.

Lemma stok_quantity_Some txt :
  stok_quantity txt <> None <->
  exists pre w sp d post,
    txt = pre ++ w ++ sp ++ d :: post /\ same_letters w (str "Stok:") /\
    forallb is_space sp = true /\ is_digit d = true.
Proof.
  unfold stok_quantity.
  assert (E : (match find_first stok_here txt with
               | Some ds => Some (digits_value ds)
               | None => None
               end <> None) <-> find_first stok_here txt <> None)
    by (destruct (find_first stok_here txt); split; congruence).
  rewrite E, find_first_Some. split.
  - intros (pre & suf & -> & H).
    apply stok_here_Some in H as (w & sp & d & post & -> & H).
    exists pre, w, sp, d, post. split; [reflexivity | exact H].
  - intros (pre & w & sp & d & post & -> & H).
    exists pre, (w ++ sp ++ d :: post). split; [reflexivity|].
    apply stok_here_Some. exists w, sp, d, post. split; [reflexivity | exact H].
Qed.

Lemma out_of_stock_keyword_spec txt :
  out_of_stock_keyword txt = true <-> out_of_stock_phrase txt.
Proof.
  unfold out_of_stock_keyword, out_of_stock_phrase.
  rewrite !orb_true_iff, !occurs_ci. tauto.
Qed.

(** C6, as the code has it.  For every page the stock flag is read from
    keywords in any case and without regard to the price.  Marketplace A:
    true when [In Stock] occurs, otherwise false when [Currently
    unavailable] occurs, otherwise unknown.  Marketplace B, on the visible
    text: a [Stok: N] quantity decides alone, true when N > 0 and false
    when N = 0; only without a quantity an out-of-stock keyword gives
    false, and unknown is left otherwise; pages with the same visible text
    get the same flag whatever their price. *)
Theorem stock_detection (cheerio_text : text -> text) (html : text) :
  (exists r,
      extractAmazonPriceAndStock html = Normal r /\
      (contains_ci (str "In Stock") html -> inStock r = Some true) /\
      (~ contains_ci (str "In Stock") html ->
       contains_ci (str "Currently unavailable") html ->
       inStock r = Some false) /\
      (~ contains_ci (str "In Stock") html ->
       ~ contains_ci (str "Currently unavailable") html ->
       inStock r = None)) /\
  (exists r,
      extractTokopediaPriceAndStock cheerio_text html = Normal r /\
      (forall n, stok_quantity (cheerio_text html) = Some n ->
                 inStock r = Some (0 <? n)%Z) /\
      (inStock r = Some true <->
       exists n, stok_quantity (cheerio_text html) = Some n /\ (0 < n)%Z) /\
      (stok_quantity (cheerio_text html) = None ->
       out_of_stock_phrase (cheerio_text html) -> inStock r = Some false) /\
      (stok_quantity (cheerio_text html) = None ->
       ~ out_of_stock_phrase (cheerio_text html) -> inStock r = None) /\
      (forall html',
          cheerio_text html' = cheerio_text html ->
          exists r', extractTokopediaPriceAndStock cheerio_text html'
                     = Normal r' /\ inStock r' = inStock r)) /\
  (stok_quantity (cheerio_text html) <> None <->
   exists pre w sp d post,
     cheerio_text html = pre ++ w ++ sp ++ d :: post /\
     same_letters w (str "Stok:") /\
     forallb is_space sp = true /\ is_digit d = true).
Proof.
  split; [|split; [|apply stok_quantity_Some]].
  - eexists. split; [apply extractAmazon_chain|]. cbn [inStock].
    unfold amazon_stock. rewrite <- !occurs_ci.
    destruct (occurs true (str "In Stock") html);
      destruct (occurs true (str "Currently unavailable") html);
      repeat split; intros; congruence.
  - eexists. split; [apply extractTokopedia_chain|]. cbn [inStock].
    unfold tokopedia_stock. rewrite <- out_of_stock_keyword_spec.
    repeat split.
    + intros n ->. reflexivity.
    + destruct (stok_quantity (cheerio_text html)) as [n|].
      * intros [= H]. exists n. split; [reflexivity | now apply Z.ltb_lt].
      * destruct (out_of_stock_keyword (cheerio_text html)); discriminate.
    + intros (n & -> & H). f_equal. now apply Z.ltb_lt.
    + intros -> ->. reflexivity.
    + intros -> H. destruct (out_of_stock_keyword (cheerio_text html));
        [now elim H | reflexivity].
    + intros html' E. eexists. split; [apply extractTokopedia_chain|].
      cbn [inStock]. now rewrite E.
Qed.

Lemma stock_detection_witness :
  (exists r, extractAmazonPriceAndStock (str "<span>IN STOCK</span>")
             = Normal r /\ inStock r = Some true) /\
  (exists r, extractTokopediaPriceAndStock plain_text (str "stok: 30")
             = Normal r /\ inStock r = Some true).
Proof.
  destruct (stock_detection plain_text (str "<span>IN STOCK</span>"))
    as ((r & Hr & Hin & _) & _).
  destruct (stock_detection plain_text (str "stok: 30"))
    as (_ & (r' & Hr' & Hq & _) & _).
  split.
  - exists r. split; [exact Hr|]. apply Hin.
    exists (str "<span>"), (str "IN STOCK"), (str "</span>").
    split; reflexivity.
  - exists r'. split; [exact Hr'|]. apply (Hq 30%Z). reflexivity.
Defined.

(* ===================================================================== *)
(** ** Marketplace B: the price parameter comes first *)









(* ===================================================================== *)
(** ** Cleanup of currency text *)













(** C6, as the sentence is worded, fails: it leaves a quantity that is not
    positive to the keywords and then to unknown.  The text [Stok: 0] has
    the quantity 0 and none of the keywords, and the flag is false, not
    unknown. *)
Lemma zero_quantity_is_out_of_stock :
  extractTokopediaPriceAndStock plain_text (str "Stok: 0")
    = Normal (mkReading None (Some false)) /\
  stok_quantity (plain_text (str "Stok: 0")) = Some 0%Z /\
  out_of_stock_keyword (plain_text (str "Stok: 0")) = false.
Proof. repeat split; reflexivity. Qed.

(* ===================================================================== *)
(** ** A full cycle on the sample data *)

(** Last price 600000, in stock, page with price 501282.85 and no stock
    marker: one price-drop notification, and the record then holds the new
    price, the carried-over stock flag and the time of the update. *)
Example price_drop_cycle :
  let page := js "{`priceAmount`:501282.85}" in
  exists w',
    handler sample_config (sample_services page true) amazon
      (mkScan (Some [sample_item])) [] sample_world = Normal (1, w') /\
    outbox w' =
      [mkPublish "arn:price-drop" (PriceDropAlert "Amazon")
         (PriceDropMessage sample_url (Some 600000%Q) 501282.85%Q
            "u1" "unknown")] /\
    (exists item,
        products w' !! sample_url = Some item /\
        item !! "last_price"%string = Some (ANumber 501282.85%Q) /\
        item !! "in_stock"%string = Some (ABool true) /\
        item !! "updated_at"%string
        = Some (AString "2026-01-01T00:00:00.000Z") /\
        item !! "user_id"%string = Some (AString "u1")).
Proof.
  eexists. split; [reflexivity|]. split; [reflexivity|].
  eexists. split; [reflexivity|]. repeat split.
Qed.

(* ===================================================================== *)
(** ** Pagination *)

Lemma for_items_app cfg svc mp (a b : list Item) acc :
  for_items cfg svc mp (a ++ b) acc =
  for_items cfg svc mp b (for_items cfg svc mp a acc).
Proof. unfold for_items. apply fold_left_app. Qed.

Lemma scan_loop_all_records cfg svc mp more : forall scan acc,
  scan_loop cfg svc mp scan more acc =
  for_items cfg svc mp (all_records (scan :: more)) acc.
Proof.
  induction more as [|next more IH]; intros scan acc; cbn [scan_loop].
  - unfold all_records. cbn. now rewrite app_nil_r.
  - rewrite IH. unfold all_records. cbn [List.map concat].
    now rewrite !for_items_app.
Qed.

(** X1.  Page boundaries do not matter: with both tables configured the
    handler does to the counter and the world what the record loop does on
    the records of all pages taken in scan order, so two scans that deliver
    the same records in the same order but cut into pages differently give
    the same result. *)
Theorem handler_ignores_page_boundaries (cfg : Config) (svc : Services)
  (mp : Marketplace) (first first' : ScanOutput)
  (more more' : list ScanOutput) (w : World) :
  non_empty (PRODUCTS_TABLE cfg) = true ->
  non_empty (USERS_TABLE cfg) = true ->
  handler cfg svc mp first more w
  = Normal (for_items cfg svc mp (all_records (first :: more)) (0, w)) /\
  (all_records (first :: more) = all_records (first' :: more') ->
   handler cfg svc mp first more w = handler cfg svc mp first' more' w).
Proof.
  intros Hp Hu.
  assert (E : forall f m,
             handler cfg svc mp f m w
             = Normal (for_items cfg svc mp (all_records (f :: m)) (0, w))).
  { intros f m. unfold handler. rewrite Hp, Hu. cbn [negb orb].
    now rewrite scan_loop_all_records. }
  split; [apply E|]. intros H. now rewrite !E, H.
Qed.

Lemma handler_ignores_page_boundaries_witness :
  handler sample_config (sample_services [] true) (tokopedia plain_text)
    (mkScan (Some [sample_item])) [mkScan None; mkScan (Some [sample_orphan])]
    sample_world
  = handler sample_config (sample_services [] true) (tokopedia plain_text)
      (mkScan (Some [sample_item; sample_orphan])) [] sample_world.
Proof.
  apply (handler_ignores_page_boundaries sample_config
           (sample_services [] true) (tokopedia plain_text)
           (mkScan (Some [sample_item]))
           (mkScan (Some [sample_item; sample_orphan]))
           [mkScan None; mkScan (Some [sample_orphan])] [] sample_world);
    reflexivity.
Defined.

(* ===================================================================== *)
(** ** What a cycle can change *)

Lemma ends_in_ret {A} (R : World -> World -> Prop) (a : A) :
  (forall w, R w w) -> ends_in R (ret a).
Proof. intros H w. apply H. Qed.

Lemma ends_in_continue {A} (R : World -> World -> Prop) :
  (forall w, R w w) -> ends_in R (@continue A).
Proof. intros H w. apply H. Qed.

Lemma ends_in_call {A} (R : World -> World -> Prop)
  (f : World -> completion A) :
  (forall w, R w w) -> ends_in R (call f).
Proof. intros H w. unfold call. destruct (f w); apply H. Qed.

Lemma ends_in_bind {A B} (R1 R2 R3 : World -> World -> Prop)
  (c : M A) (f : A -> M B) :
  ends_in R1 c -> (forall a, ends_in R2 (f a)) ->
  (forall w, R2 w w) ->
  (forall w1 w2 w3, R1 w1 w2 -> R2 w2 w3 -> R3 w1 w3) ->
  ends_in R3 (bind c f).
Proof.
  intros Hc Hf Hrefl Hcomp w. unfold bind.
  specialize (Hc w). destruct (c w) as [[a| |e] w1]; cbn [snd] in *.
  - apply (Hcomp w w1); [exact Hc | apply Hf].
  - apply (Hcomp w w1); [exact Hc | apply Hrefl].
  - apply (Hcomp w w1); [exact Hc | apply Hrefl].
Qed.

Lemma ends_in_weaken {A} (R R' : World -> World -> Prop) (c : M A) :
  (forall w w', R w w' -> R' w w') -> ends_in R c -> ends_in R' c.
Proof. intros H Hc w. apply H, Hc. Qed.

Lemma same_elsewhere_refl url w : same_elsewhere url w w.
Proof. intros u _. reflexivity. Qed.

Lemma same_elsewhere_trans url w1 w2 w3 :
  same_elsewhere url w1 w2 -> same_elsewhere url w2 w3 ->
  same_elsewhere url w1 w3.
Proof. intros H1 H2 u Hu. now rewrite (H2 u Hu), (H1 u Hu). Qed.

Lemma grows_refl P n w : grows P n w w.
Proof.
  exists []. rewrite app_nil_r. repeat split; [cbn; lia | constructor].
Qed.

Lemma grows_trans P n1 n2 w1 w2 w3 :
  grows P n1 w1 w2 -> grows P n2 w2 w3 -> grows P (n1 + n2) w1 w3.
Proof.
  intros (a & Ea & La & Pa) (b & Eb & Lb & Pb). exists (a ++ b).
  rewrite Eb, Ea, <- app_assoc. repeat split.
  - rewrite length_app. lia.
  - apply Forall_app; auto.
Qed.

Lemma grows_le P n n' w w' : n <= n' -> grows P n w w' -> grows P n' w w'.
Proof. intros Hn (a & Ea & La & Pa). exists a. repeat split; auto; lia. Qed.

Lemma decide_change_priceDropped lastPrice prevInStock p stock :
  priceDropped (decide_change lastPrice prevInStock p stock) = true ->
  exists last, lastPrice = Some last /\ (p < last)%Q.
Proof.
  cbn. destruct lastPrice as [last|]; [|discriminate].
  intros H. exists last. split; [reflexivity | now apply lt_number_spec].
Qed.

Section CycleInvariants.
Variable cfg : Config.
Variable svc : Services.
Variable mp : Marketplace.

Lemma publish_same_elsewhere url p :
  ends_in (same_elsewhere url) (publish svc p).
Proof.
  intros w. unfold publish, bind, call.
  destruct (sns_send svc p w) as [[]|e]; cbn; intros u _; reflexivity.
Qed.

Lemma update_same_elsewhere url price b :
  ends_in (same_elsewhere url) (update_product svc mp url price b).
Proof.
  intros w. unfold update_product, bind, call.
  destruct (ddb_update svc url w) as [[]|e]; cbn;
    [|apply same_elsewhere_refl].
  intros u Hu. cbn. now rewrite lookup_insert_ne.
Qed.

Lemma publish_grows P p : P p -> ends_in (grows P 1) (publish svc p).
Proof.
  intros Hp w. unfold publish, bind, call.
  destruct (sns_send svc p w) as [[]|e]; cbn; [|apply grows_refl].
  exists [p]. repeat split; [cbn; lia | now constructor].
Qed.

Lemma update_grows P url price b :
  ends_in (grows P 0) (update_product svc mp url price b).
Proof.
  intros w. unfold update_product, bind, call.
  destruct (ddb_update svc url w) as [[]|e]; cbn;
    (exists []; rewrite app_nil_r; repeat split; [cbn; lia | constructor]).
Qed.

Lemma email_of_non_empty user : non_empty (email_of user) = true.
Proof.
  unfold email_of, as_string.
  destruct user as [item|]; [|reflexivity].
  destruct (item !! "email"%string) as [[| | |s]|]; try reflexivity.
  destruct (non_empty s) eqn:E; [exact E | reflexivity].
Qed.

(** A relation that is reflexive and transitive and that every send and
    the update respect holds across the whole cycle. *)
Lemma item_cycle_ends_in (R : World -> World -> Prop)
  productUrl userId lastPrice prevInStock :
  (forall w, R w w) ->
  (forall w1 w2 w3, R w1 w2 -> R w2 w3 -> R w1 w3) ->
  (forall q, ends_in R (publish svc q)) ->
  (forall p b, ends_in R (update_product svc mp productUrl p b)) ->
  ends_in R (item_cycle cfg svc mp productUrl userId lastPrice prevInStock).
Proof.
  intros Hr Ht Hpub Hupd. unfold item_cycle.
  eapply ends_in_bind; [apply ends_in_call, Hr | | exact Hr | exact Ht].
  intros response.
  eapply ends_in_bind; [apply ends_in_call, Hr | | exact Hr | exact Ht].
  intros reading. destruct (price reading) as [p|];
    [|apply ends_in_continue, Hr].
  eapply ends_in_bind; [ | intros _; apply Hupd | exact Hr | exact Ht].
  destruct (_ || _); [|apply ends_in_ret, Hr].
  eapply ends_in_bind; [apply ends_in_call, Hr | | exact Hr | exact Ht].
  intros user.
  eapply ends_in_bind; [ | intros _ | exact Hr | exact Ht].
  - destruct (_ && _); [apply Hpub | apply ends_in_ret, Hr].
  - destruct (_ && _); [apply Hpub | apply ends_in_ret, Hr].
Qed.

Lemma item_cycle_same_elsewhere productUrl userId lastPrice prevInStock :
  ends_in (same_elsewhere productUrl)
    (item_cycle cfg svc mp productUrl userId lastPrice prevInStock).
Proof.
  apply item_cycle_ends_in.
  - apply same_elsewhere_refl.
  - apply same_elsewhere_trans.
  - intros q. apply publish_same_elsewhere.
  - intros p b. apply update_same_elsewhere.
Qed.

Lemma item_cycle_grows productUrl userId lastPrice prevInStock :
  ends_in (grows (sound_publish cfg mp) 2)
    (item_cycle cfg svc mp productUrl userId lastPrice prevInStock).
Proof.
  set (P := sound_publish cfg mp).
  assert (T0 : forall n w1 w2 w3,
             grows P 0 w1 w2 -> grows P n w2 w3 -> grows P n w1 w3)
    by (intros n w1 w2 w3 H1 H2; exact (grows_trans P 0 n _ _ _ H1 H2)).
  unfold item_cycle.
  eapply ends_in_bind;
    [apply ends_in_call, (grows_refl P 0) | | apply (grows_refl P 2)
     | apply T0].
  intros response.
  eapply ends_in_bind;
    [apply ends_in_call, (grows_refl P 0) | | apply (grows_refl P 2)
     | apply T0].
  intros reading. destruct (price reading) as [p|];
    [|apply ends_in_continue, grows_refl].
  set (d := decide_change lastPrice prevInStock p (inStock reading)).
  eapply (ends_in_bind (grows P 2) (grows P 0) (grows P 2));
    [ | intros _; apply update_grows | apply grows_refl
      | intros w1 w2 w3 H1 H2;
        apply (grows_le P (2 + 0)); [lia | exact (grows_trans _ _ _ _ _ _ H1 H2)]].
  destruct (priceDropped d || restocked d); [|apply ends_in_ret, grows_refl].
  eapply (ends_in_bind (grows P 0) (grows P 2) (grows P 2));
    [apply ends_in_call, grows_refl | | apply grows_refl | apply T0].
  intros user.
  eapply (ends_in_bind (grows P 1) (grows P 1) (grows P 2));
    [ | intros _ | apply grows_refl
      | intros w1 w2 w3 H1 H2; exact (grows_trans _ _ _ _ _ _ H1 H2)].
  - destruct (priceDropped d) eqn:Hd; cbn [andb];
      [|apply ends_in_ret, grows_refl].
    destruct (non_empty (SNS_PRICE_DROP_TOPIC_ARN cfg)) eqn:Ht;
      [|apply ends_in_ret, grows_refl].
    apply publish_grows. split; [exact Ht|]. cbn.
    repeat split; [|apply email_of_non_empty].
    apply (decide_change_priceDropped lastPrice prevInStock p
             (inStock reading)). exact Hd.
  - destruct (restocked d) eqn:Hd; cbn [andb];
      [|apply ends_in_ret, grows_refl].
    destruct (non_empty (SNS_STOCK_RESTOCK_TOPIC_ARN cfg)) eqn:Ht;
      [|apply ends_in_ret, grows_refl].
    apply publish_grows. split; [exact Ht|]. cbn.
    repeat split. apply email_of_non_empty.
Qed.

Lemma for_item_same_elsewhere acc item url :
  as_string (item !! "product_url"%string) <> Some url ->
  products (snd (for_item cfg svc mp acc item)) !! url
  = products (snd acc) !! url.
Proof.
  intros H. destruct acc as [n w]. unfold for_item.
  destruct (as_string (item !! "product_url"%string)) as [productUrl|];
    [|reflexivity].
  destruct (as_string (item !! "user_id"%string)) as [userId|];
    [|reflexivity].
  cbn [snd]. apply item_cycle_same_elsewhere. congruence.
Qed.

Lemma for_items_same_elsewhere items : forall acc url,
  Forall (fun item => as_string (item !! "product_url"%string) <> Some url)
    items ->
  products (snd (for_items cfg svc mp items acc)) !! url
  = products (snd acc) !! url.
Proof.
  induction items as [|item items IH]; intros acc url H; [reflexivity|].
  inversion H as [|? ? Hi Hrest]; subst.
  rewrite for_items_cons, (IH _ _ Hrest).
  now apply for_item_same_elsewhere.
Qed.

Lemma for_item_grows acc item :
  grows (sound_publish cfg mp) 2 (snd acc)
    (snd (for_item cfg svc mp acc item)).
Proof.
  destruct acc as [n w]. unfold for_item.
  destruct (as_string (item !! "product_url"%string)) as [productUrl|];
    [|apply grows_refl].
  destruct (as_string (item !! "user_id"%string)) as [userId|];
    [|apply grows_refl].
  cbn [snd]. apply item_cycle_grows.
Qed.

Lemma for_items_grows items : forall acc,
  grows (sound_publish cfg mp) (2 * length items) (snd acc)
    (snd (for_items cfg svc mp items acc)).
Proof.
  induction items as [|item items IH]; intros acc; [apply grows_refl|].
  rewrite for_items_cons.
  apply (grows_le _ (2 + 2 * length items)); [cbn [length]; lia|].
  eapply grows_trans; [apply for_item_grows | apply IH].
Qed.

Lemma handler_Normal first more w x :
  handler cfg svc mp first more w = Normal x ->
  x = for_items cfg svc mp (all_records (first :: more)) (0, w).
Proof.
  unfold handler. destruct (_ || _); [discriminate|].
  intros [= <-]. apply scan_loop_all_records.
Qed.

(** X2.  A pass changes no product record other than those under the
    [product_url] of a scanned record: a key that no scanned record names
    is looked up after the pass as before it. *)
Theorem handler_touches_scanned_records_only (first : ScanOutput)
  (more : list ScanOutput) (w w' : World) (n : nat) (url : string) :
  handler cfg svc mp first more w = Normal (n, w') ->
  Forall (fun item => as_string (item !! "product_url"%string) <> Some url)
    (all_records (first :: more)) ->
  products w' !! url = products w !! url.
Proof.
  intros H Hall. apply handler_Normal in H.
  pose proof (for_items_same_elsewhere _ (0, w) url Hall) as E.
  rewrite <- H in E. exact E.
Qed.

(** X3.  A pass only appends to the notifications: what was handed to the
    channel stays, at most two notifications are added per scanned record,
    and none goes to an empty topic (an event kind whose topic is not
    configured is never published). *)
Theorem handler_appends_notifications (first : ScanOutput)
  (more : list ScanOutput) (w w' : World) (n : nat) :
  handler cfg svc mp first more w = Normal (n, w') ->
  exists new,
    outbox w' = outbox w ++ new /\
    length new <= 2 * scanned (first :: more) /\
    Forall (fun q => non_empty (TopicArn q) = true) new.
Proof.
  intros H. apply handler_Normal in H.
  destruct (for_items_grows (all_records (first :: more)) (0, w))
    as (new & E & L & P).
  rewrite <- H in E. exists new. split; [exact E|]. split; [exact L|].
  eapply List.Forall_impl; [|exact P]. intros q [Hq _]. exact Hq.
Qed.

(** X4.  Every notification a pass adds is well formed: it goes to the
    topic of its kind under the subject of its kind and marketplace, its
    address is never empty ([unknown] stands in), and a price-drop message
    always names a previous price strictly above the new price (the
    [unknown] previous price of the template cannot occur). *)
Theorem handler_notifications_are_sound (first : ScanOutput)
  (more : list ScanOutput) (w w' : World) (n : nat) :
  handler cfg svc mp first more w = Normal (n, w') ->
  exists new,
    outbox w' = outbox w ++ new /\ Forall (sound_publish cfg mp) new.
Proof.
  intros H. apply handler_Normal in H.
  destruct (for_items_grows (all_records (first :: more)) (0, w))
    as (new & E & _ & P).
  rewrite <- H in E. exists new. auto.
Qed.

(** X5.  A page that cannot be fetched, or an extractor that raises, ends
    the record's cycle in the catch clause before anything else is called:
    the record is counted and the world is exactly as before. *)
Theorem fetch_error_skips_item (item : Item) (processed : nat) (w : World)
  (productUrl userId : string) (e : exn) :
  as_string (item !! "product_url"%string) = Some productUrl ->
  as_string (item !! "user_id"%string) = Some userId ->
  axios_get svc productUrl w = Throw e \/
  (exists response,
      axios_get svc productUrl w = Normal response /\
      extractPriceAndStock mp response = Throw e) ->
  for_item cfg svc mp (processed, w) item = (S processed, w).
Proof.
  intros Hu Hi H. unfold for_item. rewrite Hu, Hi.
  unfold item_cycle, bind, call, lift.
  destruct H as [H | (response & H & Hx)]; rewrite H; cbn -[decide_change].
  - reflexivity.
  - unfold call. now rewrite Hx.
Qed.

(** X6.  When neither a price drop nor a restock is detected, the user
    store and the notification channel are not consulted: whatever they
    would answer, the record is updated with the new price, the resolved
    stock flag and the time stamp, and no notification is added. *)
Theorem quiet_cycle_updates_without_lookup (item : Item) (processed : nat)
  (w : World) (productUrl userId : string) (response : text)
  (reading : Reading) (p : number) :
  let d := decide_change (item_lastPrice mp item) (item_prevInStock item) p
             (inStock reading) in
  as_string (item !! "product_url"%string) = Some productUrl ->
  as_string (item !! "user_id"%string) = Some userId ->
  axios_get svc productUrl w = Normal response ->
  extractPriceAndStock mp response = Normal reading ->
  price reading = Some p ->
  priceDropped d = false ->
  restocked d = false ->
  ddb_update svc productUrl w = Normal tt ->
  for_item cfg svc mp (processed, w) item =
  (S processed,
   mkWorld (<[ productUrl :=
                 updated_item mp (products w !! productUrl) productUrl p
                   (nowInStock d) (now svc w) ]> (products w))
           (outbox w)).
Proof.
  intros d Hu Hi Hget Hex Hp Hd Hr Hupd. unfold for_item. rewrite Hu, Hi.
  unfold item_cycle, bind, call, lift. rewrite Hget.
  cbn -[decide_change]. unfold call. rewrite Hex, Hp. fold d.
  rewrite Hd, Hr. cbn -[decide_change].
  unfold update_product, bind, call. rewrite Hupd. reflexivity.
Qed.

(** X7.  A store that rejects the update leaves the products table as it
    was, whatever else happened in the cycle (notifications may already
    have been sent). *)
Theorem rejected_update_keeps_products (item : Item) (processed : nat)
  (w : World) (productUrl : string) (e : exn) :
  as_string (item !! "product_url"%string) = Some productUrl ->
  (forall w1, ddb_update svc productUrl w1 = Throw e) ->
  products (snd (for_item cfg svc mp (processed, w) item)) = products w.
Proof.
  intros Hu Hupd. unfold for_item. rewrite Hu.
  destruct (as_string (item !! "user_id"%string)) as [userId|];
    [|reflexivity].
  cbn [snd].
  apply (item_cycle_ends_in (fun w1 w2 => products w2 = products w1)).
  - reflexivity.
  - intros w1 w2 w3 H1 H2. congruence.
  - intros q w1. unfold publish, bind, call.
    destruct (sns_send svc q w1) as [[]|]; reflexivity.
  - intros p0 b w1. unfold update_product, bind, call.
    now rewrite Hupd.
Qed.
End CycleInvariants.

Lemma handler_touches_scanned_records_only_witness :
  products sample_after !! "https://shop.example/p/2"%string
  = products sample_world !! "https://shop.example/p/2"%string.
Proof.
  apply (handler_touches_scanned_records_only sample_config
           (sample_services cheaper_page true) amazon
           (mkScan (Some [sample_item])) [] sample_world sample_after 1).
  - reflexivity.
  - repeat constructor. intros H. vm_compute in H. discriminate H.
Defined.

Lemma handler_appends_notifications_witness :
  exists new,
    outbox sample_after = outbox sample_world ++ new /\
    length new <= 2 /\
    Forall (fun q => non_empty (TopicArn q) = true) new.
Proof.
  apply (handler_appends_notifications sample_config
           (sample_services cheaper_page true) amazon
           (mkScan (Some [sample_item])) [] sample_world sample_after 1).
  reflexivity.
Defined.

Lemma handler_notifications_are_sound_witness :
  exists new,
    outbox sample_after = outbox sample_world ++ new /\
    Forall (sound_publish sample_config amazon) new.
Proof.
  apply (handler_notifications_are_sound sample_config
           (sample_services cheaper_page true) amazon
           (mkScan (Some [sample_item])) [] sample_world sample_after 1).
  reflexivity.
Defined.

Lemma fetch_error_skips_item_witness :
  for_item sample_config
    (faulty_services (Throw (ServiceError "timeout")) true true) amazon
    (0, sample_world) sample_item = (1, sample_world).
Proof.
  apply (fetch_error_skips_item sample_config
           (faulty_services (Throw (ServiceError "timeout")) true true) amazon
           sample_item 0 sample_world sample_url "u1"
           (ServiceError "timeout")).
  - reflexivity.
  - reflexivity.
  - left. reflexivity.
Defined.

Lemma quiet_cycle_updates_without_lookup_witness :
  exists w',
    for_item sample_config (faulty_services (Normal dearer_page) false true)
      amazon (0, sample_world) sample_item = (1, w') /\
    outbox w' = [].
Proof.
  eexists. split.
  - apply (quiet_cycle_updates_without_lookup sample_config
             (faulty_services (Normal dearer_page) false true) amazon
             sample_item 0 sample_world sample_url "u1" dearer_page
             (mkReading (Some 700000%Q) None) 700000%Q);
      reflexivity.
  - reflexivity.
Defined.

Lemma rejected_update_keeps_products_witness :
  products
    (snd (for_item sample_config
            (faulty_services (Normal cheaper_page) true false) amazon
            (0, sample_world) sample_item))
  = products sample_world.
Proof.
  apply (rejected_update_keeps_products sample_config
           (faulty_services (Normal cheaper_page) true false) amazon
           sample_item 0 sample_world sample_url (ServiceError "ddb")).
  - reflexivity.
  - intros w1. reflexivity.
Defined.

(* ===================================================================== *)
(** ** What an update writes and what the next pass reads back *)

Lemma updated_item_lookup mp old productUrl p b stamp :
  last_price_field mp <> "in_stock"%string ->
  last_price_field mp <> "updated_at"%string ->
  let item' := updated_item mp old productUrl p b stamp in
  item' !! last_price_field mp = Some (ANumber p) /\
  item' !! "in_stock"%string = Some (ABool b) /\
  item' !! "updated_at"%string = Some (AString stamp) /\
  (forall k,
      k <> last_price_field mp -> k <> "in_stock"%string ->
      k <> "updated_at"%string ->
      item' !! k =
      match old with
      | Some item => item !! k
      | None => if decide (k = "product_url"%string)
                then Some (AString productUrl) else None
      end).
Proof.
  intros H1 H2. cbv zeta. unfold updated_item. repeat split.
  - rewrite lookup_insert_ne by congruence.
    rewrite lookup_insert_ne by congruence.
    now rewrite lookup_insert_eq.
  - rewrite lookup_insert_ne by discriminate. now rewrite lookup_insert_eq.
  - now rewrite lookup_insert_eq.
  - intros k K1 K2 K3. rewrite !lookup_insert_ne by congruence.
    destruct old as [item|]; [reflexivity|].
    destruct (decide (k = "product_url"%string)) as [->|K4].
    + now rewrite lookup_singleton_eq.
    + now rewrite lookup_singleton_ne by congruence.
Qed.



(** X9.  Reading the same page again after the update is quiet: the record
    as the update left it gives back the new price as last price and the
    resolved stock flag as previous stock, and the decision on the same
    reading then reports neither a price drop nor a restock and resolves
    the same stock flag. *)
Theorem rescan_after_update_is_quiet (mp : Marketplace) (old : option Item)
  (productUrl stamp : string) (lastPrice : option number) (prev : bool)
  (p : number) (stock : option bool) :
  last_price_field mp <> "in_stock"%string ->
  last_price_field mp <> "updated_at"%string ->
  let d := decide_change lastPrice prev p stock in
  let item' := updated_item mp old productUrl p (nowInStock d) stamp in
  let d' := decide_change (item_lastPrice mp item') (item_prevInStock item')
              p stock in
  item_lastPrice mp item' = Some p /\
  item_prevInStock item' = nowInStock d /\
  priceDropped d' = false /\ restocked d' = false /\
  nowInStock d' = nowInStock d.
Proof.
  intros H1 H2 d item'.
  destruct (updated_item_lookup mp old productUrl p (nowInStock d) stamp
              H1 H2) as (Hp & Hs & _).
  fold item' in Hp, Hs.
  assert (E1 : item_lastPrice mp item' = Some p)
    by (unfold item_lastPrice; now rewrite Hp).
  assert (E2 : item_prevInStock item' = nowInStock d)
    by (unfold item_prevInStock; now rewrite Hs).
  cbv zeta. rewrite E1, E2. repeat split.
  - cbn [decide_change priceDropped].
    destruct (lt_number p p) eqn:L; [|reflexivity].
    apply lt_number_spec in L. now apply Qlt_irrefl in L.
  - subst d. cbn. destruct stock as [[]|], prev; reflexivity.
  - subst d. cbn. destruct stock as [[]|], prev; reflexivity.
Qed.

Lemma rescan_after_update_is_quiet_witness :
  let d := decide_change (Some 600000%Q) true 501282.85%Q None in
  let item' := updated_item amazon (Some sample_item) sample_url
                 501282.85%Q (nowInStock d) "t" in
  priceDropped (decide_change (item_lastPrice amazon item')
                  (item_prevInStock item') 501282.85%Q None) = false.
Proof.
  cbv zeta.
  destruct (rescan_after_update_is_quiet amazon (Some sample_item) sample_url
              "t" (Some 600000%Q) true 501282.85%Q None)
    as (_ & _ & H & _); [discriminate | discriminate | exact H].
Defined.

(* ===================================================================== *)
(** ** Extracted prices as numbers *)












(* ===================================================================== *)
(** ** Marketplace B: a whole-number parameter is reported as it is *)









(* ===================================================================== *)
(** ** Marketplace C: the raw key *)









(* ===================================================================== *)
(** ** Stock flags do not depend on the case of letters *)

Lemma canonicalize_idem c : canonicalize (canonicalize c) = canonicalize c.
Proof. destruct c as [[] [] [] [] [] [] [] []]; vm_compute; reflexivity. Qed.

Lemma canonicalize_space c : is_space (canonicalize c) = is_space c.
Proof. destruct c as [[] [] [] [] [] [] [] []]; vm_compute; reflexivity. Qed.

Lemma canonicalize_digit c : is_digit (canonicalize c) = is_digit c.
Proof. destruct c as [[] [] [] [] [] [] [] []]; vm_compute; reflexivity. Qed.

Lemma canonicalize_fixes_digit c : is_digit c = true -> canonicalize c = c.
Proof.
  destruct c as [[] [] [] [] [] [] [] []]; vm_compute; congruence.
Qed.

Lemma starts_with_canonical p : forall s,
  starts_with true p (List.map canonicalize s) =
  match starts_with true p s with
  | Some rest => Some (List.map canonicalize rest)
  | None => None
  end.
Proof.
  induction p as [|c p IH]; intros s; cbn [starts_with]; [reflexivity|].
  destruct s as [|a s]; cbn [List.map]; [reflexivity|].
  unfold char_eq. rewrite canonicalize_idem.
  destruct (Ascii.eqb (canonicalize c) (canonicalize a)); [apply IH|].
  reflexivity.
Qed.

Lemma take_while_map (p : ascii -> bool) (h : ascii -> ascii) s :
  (forall c, p (h c) = p c) ->
  take_while p (List.map h s) = List.map h (take_while p s).
Proof.
  intros H; induction s as [|c s IH]; cbn; [reflexivity|].
  rewrite H. destruct (p c); cbn; [now rewrite IH | reflexivity].
Qed.

Lemma drop_while_map (p : ascii -> bool) (h : ascii -> ascii) s :
  (forall c, p (h c) = p c) ->
  drop_while p (List.map h s) = List.map h (drop_while p s).
Proof.
  intros H; induction s as [|c s IH]; cbn; [reflexivity|].
  rewrite H. destruct (p c); cbn; [exact IH | reflexivity].
Qed.

Lemma map_canonicalize_digits ds :
  forallb is_digit ds = true -> List.map canonicalize ds = ds.
Proof.
  induction ds as [|d ds IH]; cbn; [reflexivity|].
  intros H. apply andb_prop in H as [Hd Hds].
  now rewrite (canonicalize_fixes_digit d Hd), (IH Hds).
Qed.

Lemma stok_here_canonical s :
  stok_here (List.map canonicalize s) = stok_here s.
Proof.
  unfold stok_here. rewrite starts_with_canonical.
  destruct (starts_with true (str "Stok:") s) as [rest|]; [|reflexivity].
  rewrite (drop_while_map _ _ _ canonicalize_space).
  rewrite (take_while_map _ _ _ canonicalize_digit).
  rewrite (map_canonicalize_digits _ (take_while_forallb is_digit _)).
  reflexivity.
Qed.

Lemma find_first_canonical {A} (f : text -> option A) s :
  (forall t, f (List.map canonicalize t) = f t) ->
  find_first f (List.map canonicalize s) = find_first f s.
Proof.
  intros H; induction s as [|c s IH]; cbn [find_first List.map].
  - reflexivity.
  - change (canonicalize c :: List.map canonicalize s)
      with (List.map canonicalize (c :: s)).
    rewrite (H (c :: s)). destruct (f (c :: s)); [reflexivity|].
    cbn [List.map]. exact IH.
Qed.

Lemma occurs_canonical p s :
  occurs true p (List.map canonicalize s) = occurs true p s.
Proof.
  unfold occurs. induction s as [|c s IH]; cbn [find_first List.map].
  - reflexivity.
  - change (canonicalize c :: List.map canonicalize s)
      with (List.map canonicalize (c :: s)).
    rewrite starts_with_canonical.
    destruct (starts_with true p (c :: s)); [reflexivity|].
    cbn [List.map]. exact IH.
Qed.

Lemma amazon_stock_canonical s :
  amazon_stock (List.map canonicalize s) = amazon_stock s.
Proof. unfold amazon_stock. now rewrite !occurs_canonical. Qed.

Lemma lazada_stock_canonical s :
  lazada_stock (List.map canonicalize s) = lazada_stock s.
Proof. unfold lazada_stock. now rewrite !occurs_canonical. Qed.

Lemma tokopedia_stock_canonical s :
  tokopedia_stock (List.map canonicalize s) = tokopedia_stock s.
Proof.
  unfold tokopedia_stock, stok_quantity, out_of_stock_keyword.
  rewrite (find_first_canonical stok_here s stok_here_canonical).
  now rewrite !occurs_canonical.
Qed.

(** X13.  The stock flag does not depend on the case of the letters: two
    pages of marketplace A or C that agree up to upper and lower case get
    the same flag, and so do two pages of marketplace B whose visible texts
    agree up to case (this holds for the [Stok: N] quantity as well as for
    the keywords). *)
Theorem stock_ignores_letter_case (JSON_parse : text -> completion json)
  (cheerio_text : text -> text) (html html' : text) :
  (List.map canonicalize html = List.map canonicalize html' ->
   exists r r',
     extractAmazonPriceAndStock html = Normal r /\
     extractAmazonPriceAndStock html' = Normal r' /\
     inStock r = inStock r') /\
  (List.map canonicalize html = List.map canonicalize html' ->
   exists r r',
     extractLazadaPriceAndStock JSON_parse html = Normal r /\
     extractLazadaPriceAndStock JSON_parse html' = Normal r' /\
     inStock r = inStock r') /\
  (List.map canonicalize (cheerio_text html)
   = List.map canonicalize (cheerio_text html') ->
   exists r r',
     extractTokopediaPriceAndStock cheerio_text html = Normal r /\
     extractTokopediaPriceAndStock cheerio_text html' = Normal r' /\
     inStock r = inStock r').
Proof.
  split; [|split]; intros E; eexists; eexists.
  - split; [apply extractAmazon_chain|]. split; [apply extractAmazon_chain|].
    cbn [inStock].
    now rewrite <- (amazon_stock_canonical html), E, amazon_stock_canonical.
  - split; [apply extractLazada_chain|]. split; [apply extractLazada_chain|].
    cbn [inStock].
    now rewrite <- (lazada_stock_canonical html), E, lazada_stock_canonical.
  - split; [apply extractTokopedia_chain|].
    split; [apply extractTokopedia_chain|]. cbn [inStock].
    now rewrite <- (tokopedia_stock_canonical (cheerio_text html)), E,
      tokopedia_stock_canonical.
Qed.

Lemma stock_ignores_letter_case_witness :
  exists r r',
    extractTokopediaPriceAndStock plain_text (str "Stok: 12 pcs") = Normal r /\
    extractTokopediaPriceAndStock plain_text (str "STOK: 12 PCS") = Normal r' /\
    inStock r = inStock r'.
Proof.
  destruct (stock_ignores_letter_case reject_all plain_text
              (str "Stok: 12 pcs") (str "STOK: 12 PCS")) as (_ & _ & H).
  apply H. reflexivity.
Defined.

(* ===================================================================== *)
(** ** A pass while no page can be fetched *)

(** X14.  When every fetch fails, a pass changes nothing: with both tables
    configured the handler still returns normally, reports every scanned
    record, and leaves the products table and the outbox as they were (one
    failing record never aborts the pass, and neither do all of them). *)
Theorem outage_pass_changes_nothing (cfg : Config) (svc : Services)
  (mp : Marketplace) (first : ScanOutput) (more : list ScanOutput)
  (w : World) (e : exn) :
  non_empty (PRODUCTS_TABLE cfg) = true ->
  non_empty (USERS_TABLE cfg) = true ->
  (forall url w1, axios_get svc url w1 = Throw e) ->
  handler cfg svc mp first more w = Normal (scanned (first :: more), w).
Proof.
  intros Hp Hu Hget.
  assert (F : forall items n,
             for_items cfg svc mp items (n, w) = (length items + n, w)).
  { induction items as [|item items IH]; intros n; [reflexivity|].
    rewrite for_items_cons.
    assert (E : for_item cfg svc mp (n, w) item = (S n, w)).
    { unfold for_item.
      destruct (as_string (item !! "product_url"%string)) as [productUrl|];
        [|reflexivity].
      destruct (as_string (item !! "user_id"%string)) as [userId|];
        [|reflexivity].
      unfold item_cycle, bind, call. now rewrite Hget. }
    rewrite E, IH. cbn [length]. f_equal. lia. }
  unfold handler. rewrite Hp, Hu. cbn [negb orb].
  rewrite scan_loop_all_records, F. unfold scanned, all_records.
  f_equal. f_equal. lia.
Qed.

Lemma outage_pass_changes_nothing_witness :
  handler sample_config
    (faulty_services (Throw (ServiceError "timeout")) true true) amazon
    (mkScan (Some [sample_item; sample_orphan])) [mkScan (Some [sample_item])]
    sample_world
  = Normal (3, sample_world).
Proof.
  apply (outage_pass_changes_nothing sample_config
           (faulty_services (Throw (ServiceError "timeout")) true true) amazon
           (mkScan (Some [sample_item; sample_orphan]))
           [mkScan (Some [sample_item])] sample_world
           (ServiceError "timeout")); reflexivity.
Defined.

(* ===================================================================== *)
(** ** Marketplace B: the amount in the visible text *)









